(** * MidiDaemon: configuration loading, action registry and MIDI dispatch

    A shallow embedding of
    - [internal/config/config.go]   (module [Config]),
    - the action manager of package [actions] (module [Actions]),
    - [internal/midi/handler.go]    (module [Midi]),
    followed by the properties of the event dispatch pipeline.

    Go's [int] is modelled as [Z]: the functions below only compare these
    integers, the one multiplication ([time.Duration] in [handleEvent]) has
    its 64-bit wrap-around written out.  Go's [error] is a message with an
    optional wrapped cause ([fmt.Errorf] with [%w]). *)

From stdpp Require Import base strings gmap list pretty.
From Stdlib Require Import ZArith Lia.

#[local] Set Warnings "-register-all".
Open Scope string_scope.
Open Scope list_scope.
Open Scope Z_scope.

(** ** Go errors *)

Inductive error : Type :=
  | Err (msg : string)
  | Wrapped (msg : string) (cause : error).

Definition Error (e : error) : string :=
  match e with Err m | Wrapped m _ => m end.

Definition Unwrap (e : error) : option error :=
  match e with Err _ => None | Wrapped _ c => Some c end.

(** [fmt.Errorf(msg)] without a wrapping verb. *)
Definition Errorf (m : string) : error := Err m.

(** [fmt.Errorf(prefix + "%w", e)]: the message of [e] is appended and [e]
    is kept as the cause. *)
Definition Errorf_w (prefix : string) (e : error) : error :=
  Wrapped (prefix +:+ Error e) e.

(** [s] occurs in [t] as a contiguous substring. *)
Definition contains (t s : string) : Prop :=
  exists pre post : string, t = pre +:+ s +:+ post.

(** [%d] of an [int]. *)
Definition fmt_d (z : Z) : string := pretty z.

(** ** internal/config/config.go *)

Module Config.

(** A decoded JSON value of a [map[string]interface{}].  Numbers keep their
    literal: nothing modelled here computes with them. *)
Inductive ParamValue : Type :=
  | PVNull
  | PVBool (b : bool)
  | PVNumber (literal : string)
  | PVString (s : string)
  | PVList (l : list ParamValue)
  | PVMap (m : list (string * ParamValue)).

Record MIDIConfig : Type := mkMIDIConfig {
  InputPort : string;
  Channel : Z;
  Timeout : Z
}.

Record MIDIEvent : Type := mkMIDIEvent {
  Type_ : string;
  Note : Z;
  Controller : Z;
  Program_ : Z;
  Velocity : Z;
  Value : Z
}.

Record Action : Type := mkAction {
  AType : string;
  Parameters : gmap string ParamValue
}.

Record Mapping : Type := mkMapping {
  Name : string;
  Event : MIDIEvent;
  Action_ : Action;
  Enabled : bool
}.

Record GeneralConfig : Type := mkGeneralConfig {
  LogLevel : string;
  AutoRestart : bool;
  ActionDelay : Z
}.

Record Config : Type := mkConfig {
  MIDI : MIDIConfig;
  Mappings : list Mapping;
  General : GeneralConfig
}.

(** The loop of [setDefaults] over [config.Mappings]: a mapping that is not
    enabled is enabled. *)
Definition enableMapping (m : Mapping) : Mapping :=
  if negb (Enabled m)
  then {| Name := Name m; Event := Event m; Action_ := Action_ m; Enabled := true |}
  else m.

Definition setDefaults (config : Config) : Config :=
  let midi := MIDI config in
  let channel := if Channel midi =? 0 then -1 else Channel midi in
  let timeout := if Timeout midi =? 0 then 30 else Timeout midi in
  let general := General config in
  let logLevel := if String.eqb (LogLevel general) "" then "info" else LogLevel general in
  let actionDelay := if ActionDelay general =? 0 then 100 else ActionDelay general in
  {| MIDI := {| InputPort := InputPort midi; Channel := channel; Timeout := timeout |};
     Mappings := map enableMapping (Mappings config);
     General := {| LogLevel := logLevel;
                   AutoRestart := AutoRestart general;
                   ActionDelay := actionDelay |} |}.

Definition validateMIDIEvent (event : MIDIEvent) : option error :=
  let ty := Type_ event in
  if String.eqb ty "note_on" || String.eqb ty "note_off" then
    if (Note event <? 0) || (Note event >? 127) then
      Some (Errorf ("ungültige MIDI-Note: " +:+ fmt_d (Note event)
                    +:+ " (muss zwischen 0 und 127 liegen)"))
    else if (Velocity event <? 0) || (Velocity event >? 127) then
      Some (Errorf ("ungültige Velocity: " +:+ fmt_d (Velocity event)
                    +:+ " (muss zwischen 0 und 127 liegen)"))
    else None
  else if String.eqb ty "control_change" then
    if (Controller event <? 0) || (Controller event >? 127) then
      Some (Errorf ("ungültiger Controller: " +:+ fmt_d (Controller event)
                    +:+ " (muss zwischen 0 und 127 liegen)"))
    else if (Value event <? 0) || (Value event >? 127) then
      Some (Errorf ("ungültiger Controller-Wert: " +:+ fmt_d (Value event)
                    +:+ " (muss zwischen 0 und 127 liegen)"))
    else None
  else if String.eqb ty "program_change" then
    if (Program_ event <? 0) || (Program_ event >? 127) then
      Some (Errorf ("ungültiges Program: " +:+ fmt_d (Program_ event)
                    +:+ " (muss zwischen 0 und 127 liegen)"))
    else None
  else Some (Errorf ("ungültiger Event-Typ: " +:+ ty)).

(** [_, ok := action.Parameters[key]; !ok] *)
Definition missing (action : Action) (key : string) : bool :=
  match Parameters action !! key with
  | Some _ => false
  | None => true
  end.

Definition validateAction (action : Action) : option error :=
  let ty := AType action in
  if String.eqb ty "volume" then
    if missing action "direction"
    then Some (Errorf "volume-Aktion benötigt 'direction' Parameter") else None
  else if String.eqb ty "app_start" then
    if missing action "path"
    then Some (Errorf "app_start-Aktion benötigt 'path' Parameter") else None
  else if String.eqb ty "key_combination" then
    if missing action "keys"
    then Some (Errorf "key_combination-Aktion benötigt 'keys' Parameter") else None
  else if String.eqb ty "audio_source" then
    if missing action "source"
    then Some (Errorf "audio_source-Aktion benötigt 'source' Parameter") else None
  else Some (Errorf ("ungültiger Aktion-Typ: " +:+ ty)).

Definition validateMapping (mapping : Mapping) : option error :=
  match validateMIDIEvent (Event mapping) with
  | Some err => Some (Errorf_w "ungültiges MIDI-Event: " err)
  | None =>
      match validateAction (Action_ mapping) with
      | Some err => Some (Errorf_w "ungültige Aktion: " err)
      | None => None
      end
  end.

(** The loop of [validate] over the mappings, [i] being the index of the
    head of [ms]: the first invalid mapping ends it. *)
Fixpoint validateMappings (i : Z) (ms : list Mapping) : option error :=
  match ms with
  | [] => None
  | mapping :: rest =>
      match validateMapping mapping with
      | Some err =>
          Some (Errorf_w ("ungültiges Mapping " +:+ fmt_d i +:+ " ("
                          +:+ Name mapping +:+ "): ") err)
      | None => validateMappings (i + 1) rest
      end
  end.

Definition validate (config : Config) : option error :=
  let channel := Channel (MIDI config) in
  if (channel <? -1) || (channel >? 15) then
    Some (Errorf ("ungültiger MIDI-Kanal: " +:+ fmt_d channel
                  +:+ " (muss zwischen -1 und 15 liegen)"))
  else validateMappings 0 (Mappings config).

(** What [Load] asks of its surroundings: [filepath.Abs], [os.Open] (the
    file's contents) and the JSON decoder into a [Config]. *)
Record Env : Type := mkEnv {
  Abs : string -> error + string;
  Open : string -> error + string;
  Decode : string -> error + Config
}.

Definition Load (env : Env) (configPath : string) : error + Config :=
  match Abs env configPath with
  | inl err => inl (Errorf_w "ungültiger Konfigurationspfad: " err)
  | inr absPath =>
      match Open env absPath with
      | inl err => inl (Errorf_w "konnte Konfigurationsdatei nicht öffnen: " err)
      | inr file =>
          match Decode env file with
          | inl err => inl (Errorf_w "fehler beim Parsen der Konfigurationsdatei: " err)
          | inr decoded =>
              let config := setDefaults decoded in
              match validate config with
              | Some err => inl (Errorf_w "ungültige Konfiguration: " err)
              | None => inr config
              end
          end
      end
  end.

End Config.

(** ** Calls made by the modelled functions

    The functions of packages [actions] and [midi] act on their surroundings
    through the logger, the registered executors, the MIDI port, their own
    channels, goroutines and [time.Sleep].  Each function returns, next to
    its result, the list of these calls in program order. *)

Inductive Level : Type := LDebug | LInfo | LWarn | LError.

(** A value among the key/value fields of a log call. *)
Inductive LogValue : Type :=
  | VString (s : string)
  | VInt (z : Z)
  | VError (e : error)
  | VParameters (p : gmap string Config.ParamValue).

(** The two channels a [Handler] owns. *)
Inductive Chan : Type := done | eventChan.

Inductive Call : Type :=
  | Log (level : Level) (msg : string) (fields : list (string * LogValue))
  | ExecutorExecute (executor : string) (action : Config.Action)
  | ExecutorValidate (executor : string) (action : Config.Action)
  | MatchesMapping (mappingEvent : Config.MIDIEvent) (result : bool)
  | GoExecute (m : Config.Mapping)
  | Sleep (d : Z)
  | PortGetPortNames
  | PortOpen (portName : string)
  | PortClose
  | PortReadEvents
  | GoProcessEvents
  | CloseChan (c : Chan).

(** ** Package actions: the executor registry *)

Module Actions.

Import Config.

Section Registry.

(** The state of the platform the executors act on. *)
Context {World : Type}.

(** The [Executor] interface, with the optional [ActionValidator] one. *)
Record Executor : Type := mkExecutor {
  GetName : string;
  Execute_ : Action -> World -> World * option error;
  Validate : option (Action -> option error)
}.

Record Manager : Type := mkManager {
  executors : gmap string Executor
}.

(** [make(map[string]Executor)] *)
Definition emptyManager : Manager := {| executors := ∅ |}.

Definition registerExecutor (m : Manager) (executor : Executor) : Manager :=
  {| executors := <[GetName executor := executor]> (executors m) |}.

Definition Execute (m : Manager) (action : Action) (w : World)
  : World * list Call * option error :=
  match executors m !! AType action with
  | None =>
      (w, [],
       Some (Errorf ("kein Executor für Aktion-Typ '" +:+ AType action +:+ "' gefunden")))
  | Some executor =>
      let debug :=
        Log LDebug "Führe Aktion aus"
          [("type", VString (AType action)); ("parameters", VParameters (Parameters action))] in
      let call := ExecutorExecute (GetName executor) action in
      match Execute_ executor action w with
      | (w', Some err) =>
          (w', [debug; call],
           Some (Errorf_w ("fehler beim Ausführen der Aktion '" +:+ AType action +:+ "': ") err))
      | (w', None) =>
          (w',
           [debug; call;
            Log LInfo "Aktion erfolgreich ausgeführt" [("type", VString (AType action))]],
           None)
      end
  end.

Definition GetExecutor (m : Manager) (actionType : string) : option Executor :=
  executors m !! actionType.

Definition ValidateAction (m : Manager) (action : Action) : list Call * option error :=
  match GetExecutor m (AType action) with
  | None => ([], Some (Errorf ("ungültiger Aktion-Typ: " +:+ AType action)))
  | Some executor =>
      match Validate executor with
      | Some validator => ([ExecutorValidate (GetName executor) action], validator action)
      | None => ([], None)
      end
  end.

(** [GetAvailableTypes]: the keys of the executor map.  Go leaves the order
    in which [range] visits a map unspecified; the list below has the keys
    in one order, and only what holds in every order is stated of it. *)
Definition GetAvailableTypes (m : Manager) : list string :=
  map fst (map_to_list (executors m)).

End Registry.

Arguments Executor : clear implicits.
Arguments Manager : clear implicits.

End Actions.

(** ** internal/midi/handler.go *)

Module Midi.

Record MIDIEvent : Type := mkMIDIEvent {
  Type_ : string;
  Channel : Z;
  Note : Z;
  Controller : Z;
  Program_ : Z;
  Velocity : Z;
  Value : Z;
  Timestamp : Z
}.

(** The [MIDIPort] interface over a port state [P].  The channel that
    [ReadEvents] hands out is not part of the result: its events reach
    [processEvents] as a list of [Select] outcomes. *)
Class MIDIPort (P : Type) : Type := mkMIDIPort {
  Open : string -> P -> P * option error;
  Close_ : P -> P * option error;
  ReadEvents : P -> P * option error;
  GetPortNames_ : P -> P * (error + list string)
}.

(** A 64-bit signed integer after an overflowing operation. *)
Definition wrap64 (z : Z) : Z := (z + 2 ^ 63) mod 2 ^ 64 - 2 ^ 63.

(** [time.Millisecond], in nanoseconds. *)
Definition Millisecond : Z := 1000000.

Definition matchesMapping (event : MIDIEvent) (mappingEvent : Config.MIDIEvent) : bool :=
  if negb (String.eqb (Type_ event) (Config.Type_ mappingEvent)) then false
  else if String.eqb (Type_ event) "note_on" || String.eqb (Type_ event) "note_off" then
    if negb (Note event =? Config.Note mappingEvent) then false
    else if (Config.Velocity mappingEvent >? 0)
            && (Velocity event <? Config.Velocity mappingEvent) then false
    else true
  else if String.eqb (Type_ event) "control_change" then
    if negb (Controller event =? Config.Controller mappingEvent) then false
    else if (Config.Value mappingEvent >? 0)
            && (Value event <? Config.Value mappingEvent) then false
    else true
  else if String.eqb (Type_ event) "program_change" then
    if negb (Program_ event =? Config.Program_ mappingEvent) then false
    else true
  else true.

(** The result of a function that may panic instead of returning. *)
Inductive Outcome : Type :=
  | Return (err : option error)
  | Panic (msg : string).

(** One outcome of the [select] in [processEvents]. *)
Inductive Select : Type :=
  | Recv (event : MIDIEvent)
  | StreamClosed
  | CtxDone
  | HDone.

Section Handler.

Context {World P : Type} `{MIDIPort P}.

(** [port] is never nil: [NewHandler] is the only constructor and sets it.
    A channel is modelled by whether it has been closed. *)
Record Handler : Type := mkHandler {
  config : Config.Config;
  actionMgr : Actions.Manager World;
  port : P;
  eventChanClosed : bool;
  doneClosed : bool;
  isRunning : bool
}.

(** The struct literal of [NewHandler], from a manager and a port already
    created. *)
Definition newHandler (cfg : Config.Config) (mgr : Actions.Manager World) (p : P)
  : Handler :=
  {| config := cfg; actionMgr := mgr; port := p;
     eventChanClosed := false; doneClosed := false; isRunning := false |}.

Definition setPort (h : Handler) (p : P) : Handler :=
  {| config := config h; actionMgr := actionMgr h; port := p;
     eventChanClosed := eventChanClosed h; doneClosed := doneClosed h;
     isRunning := isRunning h |}.

Definition setRunning (h : Handler) (b : bool) : Handler :=
  {| config := config h; actionMgr := actionMgr h; port := port h;
     eventChanClosed := eventChanClosed h; doneClosed := doneClosed h;
     isRunning := b |}.

Definition setClosed (h : Handler) (c : Chan) : Handler :=
  {| config := config h; actionMgr := actionMgr h; port := port h;
     eventChanClosed := match c with eventChan => true | done => eventChanClosed h end;
     doneClosed := match c with done => true | eventChan => doneClosed h end;
     isRunning := isRunning h |}.

Definition IsRunning (h : Handler) : bool := isRunning h.

(** The body of the goroutine started by [handleEvent] for a matching
    mapping. *)
Definition executeTask (h : Handler) (m : Config.Mapping) (w : World)
  : World * list Call :=
  match Actions.Execute (actionMgr h) (Config.Action_ m) w with
  | (w', calls, Some err) =>
      (w',
       calls ++ [Log LError "Fehler beim Ausführen der Aktion"
                   [("mapping", VString (Config.Name m));
                    ("action", VString (Config.AType (Config.Action_ m)));
                    ("error", VError err)]])
  | (w', calls, None) => (w', calls)
  end.

(** The loop of [handleEvent] over [h.config.Mappings]. *)
Fixpoint handleMappings (h : Handler) (event : MIDIEvent) (ms : list Config.Mapping)
  : list Call :=
  match ms with
  | [] => []
  | mapping :: rest =>
      (if negb (Config.Enabled mapping) then []
       else
         let r := matchesMapping event (Config.Event mapping) in
         MatchesMapping (Config.Event mapping) r ::
         (if r then
            [Log LInfo "Mapping gefunden" [("name", VString (Config.Name mapping))];
             GoExecute mapping] ++
            (let delay := Config.ActionDelay (Config.General (config h)) in
             if delay >? 0 then [Sleep (wrap64 (delay * Millisecond))] else [])
          else []))
      ++ handleMappings h event rest
  end.

Definition handleEvent (h : Handler) (event : MIDIEvent) : list Call :=
  let channel := Config.Channel (Config.MIDI (config h)) in
  if negb (channel =? -1) && negb (Channel event =? channel) then []
  else
    Log LDebug "MIDI-Event empfangen"
      [("type", VString (Type_ event)); ("channel", VInt (Channel event));
       ("note", VInt (Note event)); ("controller", VInt (Controller event));
       ("velocity", VInt (Velocity event)); ("value", VInt (Value event))]
    :: handleMappings h event (Config.Mappings (config h)).

(** The loop of [processEvents], driven by the outcomes of its [select];
    the flag tells whether the function has returned. *)
Fixpoint processEvents (h : Handler) (sel : list Select) : list Call * bool :=
  match sel with
  | [] => ([], false)
  | Recv event :: rest =>
      let '(calls, returned) := processEvents h rest in
      (handleEvent h event ++ calls, returned)
  | StreamClosed :: _ => ([Log LInfo "MIDI-Event-Stream wurde geschlossen" []], true)
  | CtxDone :: _ => ([Log LInfo "Event-Verarbeitung wird beendet" []], true)
  | HDone :: _ => ([Log LInfo "Event-Verarbeitung wird beendet" []], true)
  end.

(** *** Start, in the pieces between which another goroutine can run *)

Definition errAlreadyRunning : error := Errorf "handler läuft bereits".

(** Lines 76-82, under [h.mutex]: the flag is tested and set. *)
Definition startGuard (h : Handler) : Handler * bool :=
  if isRunning h then (h, false) else (setRunning h true, true).

(** Lines 87-99: the configured port name, or the first available one. *)
Definition resolvePort (h : Handler) : Handler * list Call * (error + string) :=
  let portName := Config.InputPort (Config.MIDI (config h)) in
  if String.eqb portName "" then
    let '(p, r) := GetPortNames_ (port h) in
    match r with
    | inl err =>
        (setPort h p, [PortGetPortNames],
         inl (Errorf_w "fehler beim Abrufen der MIDI-Ports: " err))
    | inr [] =>
        (setPort h p, [PortGetPortNames], inl (Errorf "keine MIDI-Ports verfügbar"))
    | inr (first :: _) =>
        (setPort h p,
         [PortGetPortNames;
          Log LInfo "Verwende ersten verfügbaren MIDI-Port" [("port", VString first)]],
         inr first)
    end
  else (h, [], inr portName).

(** Lines 101-105. *)
Definition openPort (h : Handler) (portName : string)
  : Handler * list Call * option error :=
  let '(p, r) := Open portName (port h) in
  match r with
  | Some err =>
      (setPort h p, [PortOpen portName],
       Some (Errorf_w ("fehler beim Öffnen des MIDI-Ports '" +:+ portName +:+ "': ") err))
  | None =>
      (setPort h p,
       [PortOpen portName; Log LInfo "MIDI-Port geöffnet" [("port", VString portName)]],
       None)
  end.

(** Lines 108-114: the event stream and the goroutine that consumes it. *)
Definition startStream (h : Handler) : Handler * list Call * option error :=
  let '(p, r) := ReadEvents (port h) in
  match r with
  | Some err =>
      (setPort h p, [PortReadEvents],
       Some (Errorf_w "fehler beim Starten des Event-Streams: " err))
  | None => (setPort h p, [PortReadEvents; GoProcessEvents], None)
  end.

(** [Start], from the call to its return; a call that reaches line 117
    returns once the context is cancelled. *)
Definition Start (h : Handler) : Handler * list Call * option error :=
  match startGuard h with
  | (h0, false) => (h0, [], Some errAlreadyRunning)
  | (h0, true) =>
      let c0 := [Log LInfo "MIDI-Handler wird gestartet" []] in
      match resolvePort h0 with
      | (h1, c1, inl err) => (h1, c0 ++ c1, Some err)
      | (h1, c1, inr portName) =>
          match openPort h1 portName with
          | (h2, c2, Some err) => (h2, c0 ++ c1 ++ c2, Some err)
          | (h2, c2, None) =>
              match startStream h2 with
              | (h3, c3, Some err) => (h3, c0 ++ c1 ++ c2 ++ c3, Some err)
              | (h3, c3, None) =>
                  (h3,
                   c0 ++ c1 ++ c2 ++ c3 ++ [Log LInfo "MIDI-Handler wird beendet" []],
                   None)
              end
          end
      end
  end.

(** [Close], under [h.mutex] throughout.  Closing a closed channel
    panics; the deferred unlock leaves the other fields as they are. *)
Definition Close (h : Handler) : Handler * list Call * Outcome :=
  if negb (isRunning h) then (h, [], Return None)
  else
    let '(p, r) := Close_ (port h) in
    let c0 :=
      [Log LInfo "MIDI-Handler wird geschlossen" []; PortClose]
      ++ match r with
         | Some err => [Log LError "Fehler beim Schließen des MIDI-Ports" [("error", VError err)]]
         | None => []
         end in
    let h0 := setPort h p in
    if doneClosed h0 then
      (h0, c0 ++ [CloseChan done], Panic "close of closed channel")
    else
      let h1 := setClosed h0 done in
      if eventChanClosed h1 then
        (h1, c0 ++ [CloseChan done; CloseChan eventChan], Panic "close of closed channel")
      else
        (setRunning (setClosed h1 eventChan) false,
         c0 ++ [CloseChan done; CloseChan eventChan], Return None).

(** *** Two concurrent calls of Start

    A call of [Start] advances through the pieces above; between two pieces
    the other call may run.  [AtWait] is the receive from [ctx.Done()]. *)

Inductive StartPC : Type :=
  | AtGuard
  | AtResolve
  | AtOpen (portName : string)
  | AtStream
  | AtWait
  | Finished (r : option error).

Definition startStep (ctxDone : bool) (pc : StartPC) (h : Handler)
  : StartPC * Handler * list Call :=
  match pc with
  | AtGuard =>
      match startGuard h with
      | (h0, false) => (Finished (Some errAlreadyRunning), h0, [])
      | (h0, true) => (AtResolve, h0, [Log LInfo "MIDI-Handler wird gestartet" []])
      end
  | AtResolve =>
      match resolvePort h with
      | (h1, c, inl err) => (Finished (Some err), h1, c)
      | (h1, c, inr portName) => (AtOpen portName, h1, c)
      end
  | AtOpen portName =>
      match openPort h portName with
      | (h2, c, Some err) => (Finished (Some err), h2, c)
      | (h2, c, None) => (AtStream, h2, c)
      end
  | AtStream =>
      match startStream h with
      | (h3, c, Some err) => (Finished (Some err), h3, c)
      | (h3, c, None) => (AtWait, h3, c)
      end
  | AtWait =>
      if ctxDone then (Finished None, h, [Log LInfo "MIDI-Handler wird beendet" []])
      else (AtWait, h, [])
  | Finished r => (Finished r, h, [])
  end.

(** The two callers. *)
Inductive Caller : Type := First | Second.

(** What happens next: one caller advances by a piece, or the context is
    cancelled. *)
Inductive Sched : Type :=
  | Run (who : Caller)
  | Cancel.

Record Sys : Type := mkSys {
  handler : Handler;
  ctxDone : bool;
  pcFirst : StartPC;
  pcSecond : StartPC;
  calls : list (Caller * Call)
}.

Definition initSys (h : Handler) : Sys :=
  {| handler := h; ctxDone := false; pcFirst := AtGuard; pcSecond := AtGuard;
     calls := [] |}.

Definition sysStep (s : Sys) (x : Sched) : Sys :=
  match x with
  | Cancel =>
      {| handler := handler s; ctxDone := true; pcFirst := pcFirst s;
         pcSecond := pcSecond s; calls := calls s |}
  | Run First =>
      let '(pc, h, c) := startStep (ctxDone s) (pcFirst s) (handler s) in
      {| handler := h; ctxDone := ctxDone s; pcFirst := pc; pcSecond := pcSecond s;
         calls := calls s ++ map (pair First) c |}
  | Run Second =>
      let '(pc, h, c) := startStep (ctxDone s) (pcSecond s) (handler s) in
      {| handler := h; ctxDone := ctxDone s; pcFirst := pcFirst s; pcSecond := pc;
         calls := calls s ++ map (pair Second) c |}
  end.

Definition runSys (s : Sys) (sched : list Sched) : Sys := fold_left sysStep sched s.

(** The calls of one caller, in order. *)
Definition callsOf (who : Caller) (cs : list (Caller * Call)) : list Call :=
  map snd (List.filter (fun x => match fst x, who with
                                 | First, First | Second, Second => true
                                 | _, _ => false
                                 end) cs).

Definition pcOf (who : Caller) (s : Sys) : StartPC :=
  match who with First => pcFirst s | Second => pcSecond s end.

Definition other (who : Caller) : Caller :=
  match who with First => Second | Second => First end.

(** A caller turned away at the guard. *)
Definition rejected (pc : StartPC) : Prop := pc = Finished (Some errAlreadyRunning).

(** A caller that has passed the guard. *)
Definition owner (pc : StartPC) : Prop := pc <> AtGuard /\ ~ rejected pc.

(** The ingestion goroutines a caller at [pc] has started. *)
Definition spawned (pc : StartPC) : nat :=
  match pc with
  | AtWait | Finished None => 1
  | _ => 0
  end.

Definition goCount (cs : list Call) : nat :=
  length (List.filter (fun c => match c with GoProcessEvents => true | _ => false end) cs).

(** One piece of a call that runs alone, the context being cancelled, on
    the caller's position, the handler and the calls made so far. *)
Definition stepAlone (x : StartPC * Handler * list Call) : StartPC * Handler * list Call :=
  let '(pc, h, c) := x in
  let '(pc', h', c') := startStep true pc h in
  (pc', h', c ++ c').

(** A call has at most five pieces. *)
Definition complete (x : StartPC * Handler * list Call) : StartPC * Handler * list Call :=
  Nat.iter 5 stepAlone x.

(** [who] has passed the guard and the other caller has not; left alone,
    [who] ends as [Start] on the initial handler [h0] does. *)
Definition owns (h0 : Handler) (who : Caller) (s : Sys) : Prop :=
  owner (pcOf who s) /\
  (pcOf (other who) s = AtGuard \/ rejected (pcOf (other who) s)) /\
  isRunning (handler s) = true /\
  callsOf (other who) (calls s) = [] /\
  goCount (callsOf who (calls s)) = spawned (pcOf who s) /\
  complete (pcOf who s, handler s, callsOf who (calls s))
  = (Finished (Start h0).2, (Start h0).1.1, (Start h0).1.2).

(** What every interleaving of two calls on the idle handler [h0]
    maintains. *)
Definition startInv (h0 : Handler) (s : Sys) : Prop :=
  (pcFirst s = AtGuard /\ pcSecond s = AtGuard /\
   isRunning (handler s) = false /\ calls s = [] /\ handler s = h0)
  \/ owns h0 First s \/ owns h0 Second s.

End Handler.

Arguments Handler : clear implicits.

End Midi.

(** ** Projections of a list of calls *)

(** The mappings whose action a list of calls starts in a goroutine. *)
Fixpoint executes (cs : list Call) : list Config.Mapping :=
  match cs with
  | [] => []
  | GoExecute m :: rest => m :: executes rest
  | _ :: rest => executes rest
  end.

(** The filters a list of calls hands to [matchesMapping]. *)
Fixpoint matchTests (cs : list Call) : list Config.MIDIEvent :=
  match cs with
  | [] => []
  | MatchesMapping f _ :: rest => f :: matchTests rest
  | _ :: rest => matchTests rest
  end.

(** The calls other than those of the logger. *)
Definition withoutLogs (cs : list Call) : list Call :=
  List.filter (fun c => match c with Log _ _ _ => false | _ => true end) cs.

Definition isPortCall (c : Call) : bool :=
  match c with
  | PortGetPortNames | PortOpen _ | PortClose | PortReadEvents => true
  | _ => false
  end.

Definition isGoProcessEvents (c : Call) : bool :=
  match c with GoProcessEvents => true | _ => false end.

Definition isExecutorCall (c : Call) : bool :=
  match c with ExecutorExecute _ _ | ExecutorValidate _ _ => true | _ => false end.

(** A mapping fires on an event: it is enabled and its filter matches. *)
Definition fires (event : Midi.MIDIEvent) (m : Config.Mapping) : bool :=
  Config.Enabled m && Midi.matchesMapping event (Config.Event m).

(** The event types the matcher and the validator know. *)
Definition knownType (ty : string) : bool :=
  String.eqb ty "note_on" || String.eqb ty "note_off"
  || String.eqb ty "control_change" || String.eqb ty "program_change".

Definition setChannel (event : Midi.MIDIEvent) (c : Z) : Midi.MIDIEvent :=
  {| Midi.Type_ := Midi.Type_ event; Midi.Channel := c; Midi.Note := Midi.Note event;
     Midi.Controller := Midi.Controller event; Midi.Program_ := Midi.Program_ event;
     Midi.Velocity := Midi.Velocity event; Midi.Value := Midi.Value event;
     Midi.Timestamp := Midi.Timestamp event |}.

(** ** The goroutines of one event

    [go func(m config.Mapping) { ... }(mapping)], handler.go:197-205: the
    goroutine that [handleEvent] starts where its calls have [GoExecute m]
    runs [Midi.executeTask] on [m].  The scheduler decides in which order
    the goroutines of one event reach the action manager; [order] lists
    their mappings in that order, and the call of the manager that each
    goroutine makes is one step on the platform. *)
Fixpoint runGoroutines {World P : Type} (h : Midi.Handler World P)
  (order : list Config.Mapping) (w : World) : World * list Call :=
  match order with
  | [] => (w, [])
  | m :: rest =>
      let '(w1, c1) := Midi.executeTask h m w in
      let '(w2, c2) := runGoroutines h rest w1 in
      (w2, c1 ++ c2)
  end.

(** What a call of the manager's [Execute] on [action] leaves of the
    platform. *)
Definition afterExecute {World : Type} (mgr : Actions.Manager World)
  (w : World) (action : Config.Action) : World :=
  (Actions.Execute mgr action w).1.1.

(** The call of an executor that the manager's [Execute] makes for
    [action]: none when no executor is registered under its type. *)
Definition executorCallFor {World : Type} (mgr : Actions.Manager World)
  (action : Config.Action) : list Call :=
  match Actions.GetExecutor mgr (Config.AType action) with
  | Some executor => [ExecutorExecute (Actions.GetName executor) action]
  | None => []
  end.

(** ** Calls of Start and Close on one handler

    [Close] holds [h.mutex] from its first line to its return, so a call of
    it runs as one step between two pieces of a call of [Start].  The calls
    that [Close] makes are those of a third goroutine and are not kept with
    the two callers'.  A [Close] that panics ends the program. *)
Inductive RaceOp : Type :=
  | StartPiece (who : Midi.Caller)
  | CloseCall.

Definition raceStep {World P : Type} `{Midi.MIDIPort P}
  (s : Midi.Sys (World := World) (P := P)) (op : RaceOp) : option Midi.Sys :=
  match op with
  | StartPiece who => Some (Midi.sysStep s (Midi.Run who))
  | CloseCall =>
      match Midi.Close (Midi.handler s) with
      | (h, _, Midi.Return _) =>
          Some {| Midi.handler := h; Midi.ctxDone := Midi.ctxDone s;
                  Midi.pcFirst := Midi.pcFirst s; Midi.pcSecond := Midi.pcSecond s;
                  Midi.calls := Midi.calls s |}
      | (_, _, Midi.Panic _) => None
      end
  end.

Fixpoint runRace {World P : Type} `{Midi.MIDIPort P}
  (s : Midi.Sys (World := World) (P := P)) (ops : list RaceOp) : option Midi.Sys :=
  match ops with
  | [] => Some s
  | op :: rest =>
      match raceStep s op with
      | Some s' => runRace s' rest
      | None => None
      end
  end.

(** ** Ports *)

(** [linuxMIDIPort] of the platform file of package [midi]. *)
Record LinuxPort : Type := mkLinuxPort {
  portName : string;
  isOpen : bool
}.

#[export] Instance linuxMIDIPort : Midi.MIDIPort LinuxPort := {|
  Midi.Open name p := ({| portName := name; isOpen := true |}, None);
  Midi.Close_ p :=
    if negb (isOpen p) then (p, None)
    else ({| portName := portName p; isOpen := false |}, None);
  Midi.ReadEvents p :=
    if negb (isOpen p) then (p, Some (Errorf "port ist nicht geöffnet"))
    else (p, None);
  Midi.GetPortNames_ p :=
    (p, inr ["ALSA MIDI Port 0"; "USB MIDI Interface"; "Virtual MIDI Port";
             "FLUID Synth"; "Timidity"])
|}.

Definition newLinuxMIDIPort : LinuxPort := {| portName := ""; isOpen := false |}.

(** ** Sample data *)

Module Sample.

Definition volumeUp : Config.Action :=
  {| Config.AType := "volume";
     Config.Parameters := {[ "direction" := Config.PVString "up";
                             "percent" := Config.PVNumber "5" ]} |}.

Definition filterCC7 : Config.MIDIEvent :=
  {| Config.Type_ := "control_change"; Config.Note := 0; Config.Controller := 7;
     Config.Program_ := 0; Config.Velocity := 0; Config.Value := 64 |}.

Definition filterNote60 : Config.MIDIEvent :=
  {| Config.Type_ := "note_on"; Config.Note := 60; Config.Controller := 0;
     Config.Program_ := 0; Config.Velocity := 100; Config.Value := 0 |}.

Definition filterPitchBend : Config.MIDIEvent :=
  {| Config.Type_ := "pitch_bend"; Config.Note := 0; Config.Controller := 0;
     Config.Program_ := 0; Config.Velocity := 0; Config.Value := 0 |}.

Definition mapping (name : string) (f : Config.MIDIEvent) (enabled : bool)
  : Config.Mapping :=
  {| Config.Name := name; Config.Event := f; Config.Action_ := volumeUp;
     Config.Enabled := enabled |}.

(** A configuration as a file could declare it: channel 0, one mapping
    disabled. *)
Definition declared : Config.Config :=
  {| Config.MIDI := {| Config.InputPort := ""; Config.Channel := 0; Config.Timeout := 0 |};
     Config.Mappings := [mapping "Volume" filterCC7 true;
                         mapping "Off" filterCC7 false;
                         mapping "Volume again" filterCC7 true;
                         mapping "Note" filterNote60 true];
     Config.General := {| Config.LogLevel := ""; Config.AutoRestart := false;
                          Config.ActionDelay := 0 |} |}.

(** The same with channel 3 and no defaults applied. *)
Definition onChannel3 : Config.Config :=
  {| Config.MIDI := {| Config.InputPort := ""; Config.Channel := 3; Config.Timeout := 30 |};
     Config.Mappings := Config.Mappings declared;
     Config.General := {| Config.LogLevel := "info"; Config.AutoRestart := false;
                          Config.ActionDelay := 100 |} |}.

(** A file system with one file, which the decoder reads as [declared]. *)
Definition env : Config.Env :=
  {| Config.Abs path := inr ("/etc/" +:+ path);
     Config.Open path :=
       if String.eqb path "/etc/config.json" then inr "{...}"
       else inl (Errorf "no such file or directory");
     Config.Decode file :=
       if String.eqb file "{...}" then inr declared
       else inl (Errorf "unexpected end of JSON input") |}.

Definition cc (channel controller value : Z) : Midi.MIDIEvent :=
  {| Midi.Type_ := "control_change"; Midi.Channel := channel; Midi.Note := 0;
     Midi.Controller := controller; Midi.Program_ := 0; Midi.Velocity := 0;
     Midi.Value := value; Midi.Timestamp := 0 |}.

Definition noteOn (channel note velocity : Z) : Midi.MIDIEvent :=
  {| Midi.Type_ := "note_on"; Midi.Channel := channel; Midi.Note := note;
     Midi.Controller := 0; Midi.Program_ := 0; Midi.Velocity := velocity;
     Midi.Value := 0; Midi.Timestamp := 0 |}.

Definition pitchBend : Midi.MIDIEvent :=
  {| Midi.Type_ := "pitch_bend"; Midi.Channel := 0; Midi.Note := 0;
     Midi.Controller := 0; Midi.Program_ := 0; Midi.Velocity := 0;
     Midi.Value := 0; Midi.Timestamp := 0 |}.

(** The platform is the current volume; the executor raises it by five and
    fails above 100. *)
Definition volumeExecutor : Actions.Executor Z :=
  {| Actions.GetName := "volume";
     Actions.Execute_ action v :=
       if v + 5 >? 100 then (v, Some (Errorf "volume out of range")) else (v + 5, None);
     Actions.Validate := Some Config.validateAction |}.

Definition manager : Actions.Manager Z :=
  Actions.registerExecutor Actions.emptyManager volumeExecutor.

Definition unknownAction : Config.Action :=
  {| Config.AType := "unknown_type"; Config.Parameters := ∅ |}.

Definition linuxHandler (cfg : Config.Config) : Midi.Handler Z LinuxPort :=
  Midi.newHandler cfg manager newLinuxMIDIPort.

End Sample.

(** ** What validation asks of a configuration *)

Definition inMIDIRange (z : Z) : Prop := 0 <= z <= 127.

(** A filter of a known type whose fields, those of its type, are in range. *)
Definition validEvent (f : Config.MIDIEvent) : Prop :=
  ((Config.Type_ f = "note_on" \/ Config.Type_ f = "note_off") /\
   inMIDIRange (Config.Note f) /\ inMIDIRange (Config.Velocity f))
  \/ (Config.Type_ f = "control_change" /\
      inMIDIRange (Config.Controller f) /\ inMIDIRange (Config.Value f))
  \/ (Config.Type_ f = "program_change" /\ inMIDIRange (Config.Program_ f)).

(** An action of one of the four types that carries its type's required
    parameter. *)
Definition validAction (a : Config.Action) : Prop :=
  (Config.AType a = "volume" /\ is_Some (Config.Parameters a !! "direction"))
  \/ (Config.AType a = "app_start" /\ is_Some (Config.Parameters a !! "path"))
  \/ (Config.AType a = "key_combination" /\ is_Some (Config.Parameters a !! "keys"))
  \/ (Config.AType a = "audio_source" /\ is_Some (Config.Parameters a !! "source")).

Definition validMapping (m : Config.Mapping) : Prop :=
  validEvent (Config.Event m) /\ validAction (Config.Action_ m).

(** The durations a list of calls sleeps, in order. *)
Fixpoint sleeps (cs : list Call) : list Z :=
  match cs with
  | [] => []
  | Sleep d :: rest => d :: sleeps rest
  | _ :: rest => sleeps rest
  end.

(** The calls that start an action's goroutine or sleep. *)
Definition isGoExecuteOrSleep (c : Call) : bool :=
  match c with GoExecute _ | Sleep _ => true | _ => false end.

(** ** Go library functions used by the executors *)

From Stdlib Require Import Ascii.

(** [strings.HasPrefix] and [strings.Contains], on bytes as Go has them. *)
Definition HasPrefix (s prefix : string) : bool := String.prefix prefix s.

Fixpoint Contains (s substr : string) : bool :=
  HasPrefix s substr
  || match s with
     | EmptyString => false
     | String _ rest => Contains rest substr
     end.

(** The value of a decimal digit. *)
Definition digitValue (c : Ascii.ascii) : option Z :=
  let n := Z.of_nat (Ascii.nat_of_ascii c) in
  if (48 <=? n) && (n <=? 57) then Some (n - 48) else None.

Fixpoint parseDigits (acc : Z) (s : string) : option Z :=
  match s with
  | EmptyString => Some acc
  | String c rest =>
      match digitValue c with
      | Some d => parseDigits (acc * 10 + d) rest
      | None => None
      end
  end.

(** [strconv.Atoi] where it returns no error: an optional sign, then one or
    more decimal digits, the value within the 64-bit [int]. *)
Definition Atoi (s : string) : option Z :=
  match s with
  | EmptyString => None
  | String c rest =>
      let negative := Ascii.eqb c "-"%char in
      let body := if negative || Ascii.eqb c "+"%char then rest else s in
      match body with
      | EmptyString => None
      | _ =>
          match parseDigits 0 body with
          | Some n =>
              let v := if negative then - n else n in
              if (- 2 ^ 63 <=? v) && (v <? 2 ^ 63) then Some v else None
          | None => None
          end
      end
  end.

(** ** The executors of package actions *)

(** A parameter reaches an executor as the JSON decoder leaves it
    ([Config.ParamValue]): a number is a [float64], a list a
    [[]interface{}].  The cases [int] and [[]string] of the executors' type
    switches apply to no decoded value and have no counterpart below. *)

(** What an executor does besides computing its result: calls of the logger
    and of its platform controller. *)
Inductive ExecCall : Type :=
  | ExecLog (level : Level) (msg : string) (fields : list (string * LogValue))
  | CallIncreaseVolume (percent : Z)
  | CallDecreaseVolume (percent : Z)
  | CallSetVolume (volume : Z)
  | CallGetAudioSources
  | CallGetDefaultAudioSource
  | CallSetDefaultAudioSource (sourceID : string).

Definition isControllerCall (c : ExecCall) : bool :=
  match c with ExecLog _ _ _ => false | _ => true end.

(** *** The volume executor *)

Module VolumeExecutor.

Import Config.

(** The [VolumeController] interface over a controller state [C]. *)
Class VolumeController (C : Type) : Type := mkVolumeController {
  GetVolume : C -> C * (error + Z);
  SetVolume : Z -> C -> C * option error;
  IncreaseVolume : Z -> C -> C * option error;
  DecreaseVolume : Z -> C -> C * option error
}.

(** [IncreaseVolume] and [DecreaseVolume] as both platform controllers
    write them, over the controller's own [GetVolume] and [SetVolume]. *)
Definition increaseVolume {C : Type}
  (get : C -> C * (error + Z)) (set : Z -> C -> C * option error)
  (percent : Z) (c : C) : C * option error :=
  match get c with
  | (c1, inl err) => (c1, Some err)
  | (c1, inr current) =>
      let newVolume := Midi.wrap64 (current + percent) in
      let newVolume := if newVolume >? 100 then 100 else newVolume in
      set newVolume c1
  end.

Definition decreaseVolume {C : Type}
  (get : C -> C * (error + Z)) (set : Z -> C -> C * option error)
  (percent : Z) (c : C) : C * option error :=
  match get c with
  | (c1, inl err) => (c1, Some err)
  | (c1, inr current) =>
      let newVolume := Midi.wrap64 (current - percent) in
      let newVolume := if newVolume <? 0 then 0 else newVolume in
      set newVolume c1
  end.

(** [linuxVolumeController]: the volume read is the placeholder 50, setting
    it does nothing yet. *)
#[export] Instance linuxVolumeController : VolumeController unit := {|
  GetVolume c := (c, inr 50);
  SetVolume volume c := (c, None);
  IncreaseVolume := increaseVolume (fun c => (c, inr 50)) (fun volume c => (c, None));
  DecreaseVolume := decreaseVolume (fun c => (c, inr 50)) (fun volume c => (c, None))
|}.

Section Executor.

Context {C : Type} `{VolumeController C}.

(** [int(v)] for the [float64] that the decoder reads from a number
    literal, and [%v] of a parameter value. *)
Variable float64ToInt : string -> Z.
Variable fmtValue : ParamValue -> string.

(** The optional percent of [Execute]: 5 unless the parameter is a number
    or a string [Atoi] reads. *)
Definition percentOf (action : Action) : Z :=
  match Parameters action !! "percent" with
  | Some (PVNumber literal) => float64ToInt literal
  | Some (PVString v) =>
      match Atoi v with
      | Some parsed => parsed
      | None => 5
      end
  | _ => 5
  end.

Definition Execute (action : Action) (c : C) : C * list ExecCall * option error :=
  let debug :=
    ExecLog LDebug "Führe Volume-Aktion aus" [("parameters", VParameters (Parameters action))] in
  match Parameters action !! "direction" with
  | None => (c, [debug], Some (Errorf "volume-Aktion benötigt 'direction' Parameter"))
  | Some (PVString directionStr) =>
      let percent := percentOf action in
      if String.eqb directionStr "up" || String.eqb directionStr "increase" then
        let '(c', r) := IncreaseVolume percent c in
        (c',
         [debug; ExecLog LInfo "Erhöhe Lautstärke" [("percent", VInt percent)];
          CallIncreaseVolume percent], r)
      else if String.eqb directionStr "down" || String.eqb directionStr "decrease" then
        let '(c', r) := DecreaseVolume percent c in
        (c',
         [debug; ExecLog LInfo "Verringere Lautstärke" [("percent", VInt percent)];
          CallDecreaseVolume percent], r)
      else if String.eqb directionStr "set" then
        match Parameters action !! "volume" with
        | Some volumeParam =>
            let invalid :=
              (c, [debug],
               Some (Errorf ("ungültiger 'volume' Parameter: " +:+ fmtValue volumeParam))) in
            let setTo (volume : Z) :=
              if (volume <? 0) || (volume >? 100) then
                (c, [debug],
                 Some (Errorf ("volume muss zwischen 0 und 100 liegen, got: "
                               +:+ fmt_d volume)))
              else
                let '(c', r) := SetVolume volume c in
                (c',
                 [debug; ExecLog LInfo "Setze Lautstärke" [("volume", VInt volume)];
                  CallSetVolume volume], r) in
            match volumeParam with
            | PVNumber literal => setTo (float64ToInt literal)
            | PVString v =>
                match Atoi v with
                | Some parsed => setTo parsed
                | None => invalid
                end
            | _ => invalid
            end
        | None => (c, [debug], Some (Errorf "'set' direction benötigt 'volume' Parameter"))
        end
      else if String.eqb directionStr "mute" then
        let '(c', r) := SetVolume 0 c in
        (c', [debug; ExecLog LInfo "Stummschalten" []; CallSetVolume 0], r)
      else if String.eqb directionStr "unmute" then
        let '(c', r) := SetVolume 50 c in
        (c', [debug; ExecLog LInfo "Stummschaltung aufheben" []; CallSetVolume 50], r)
      else
        (c, [debug],
         Some (Errorf ("ungültige direction: " +:+ directionStr
                       +:+ " (erwartet: up, down, set, mute, unmute)")))
  | Some _ => (c, [debug], Some (Errorf "'direction' Parameter muss ein String sein"))
  end.

(** The keys of the [validDirections] map. *)
Definition validDirections : list string :=
  ["up"; "down"; "increase"; "decrease"; "set"; "mute"; "unmute"].

Definition Validate (action : Action) : option error :=
  match Parameters action !! "direction" with
  | None => Some (Errorf "volume-Aktion benötigt 'direction' Parameter")
  | Some (PVString directionStr) =>
      if negb (existsb (String.eqb directionStr) validDirections) then
        Some (Errorf ("ungültige direction: " +:+ directionStr))
      else if String.eqb directionStr "set" && missing action "volume" then
        Some (Errorf "'set' direction benötigt 'volume' Parameter")
      else
        match Parameters action !! "percent" with
        | Some percentParam =>
            let invalid :=
              Some (Errorf ("ungültiger 'percent' Parameter: " +:+ fmtValue percentParam)) in
            let inRange (percent : Z) :=
              if (percent <=? 0) || (percent >? 100) then
                Some (Errorf ("percent muss zwischen 1 und 100 liegen, got: "
                              +:+ fmt_d percent))
              else None in
            match percentParam with
            | PVNumber literal => inRange (float64ToInt literal)
            | PVString v =>
                match Atoi v with
                | Some parsed => inRange parsed
                | None => invalid
                end
            | _ => invalid
            end
        | None => None
        end
  | Some _ => Some (Errorf "'direction' Parameter muss ein String sein")
  end.

(** The executor as the manager sees it; the platform is the controller
    state and the calls made so far. *)
Definition asExecutor : Actions.Executor (C * list ExecCall) :=
  {| Actions.GetName := "volume";
     Actions.Execute_ action w :=
       let '(c', calls, r) := Execute action w.1 in ((c', w.2 ++ calls), r);
     Actions.Validate := Some Validate |}.

End Executor.

End VolumeExecutor.

(** *** The audio source executor: cycling and source lookup *)

Module AudioSourceExecutor.

Record AudioSource : Type := mkAudioSource {
  ID : string;
  Name : string;
  Type_ : string;
  IsDefault : bool;
  IsMuted : bool;
  Volume : Z;
  IsAvailable : bool
}.

(** The methods of the [AudioController] interface that [cycleAudioSource]
    and [validateSource] call. *)
Class AudioController (C : Type) : Type := mkAudioController {
  GetAudioSources : C -> C * (error + list AudioSource);
  SetDefaultAudioSource : string -> C -> C * option error;
  GetDefaultAudioSource : C -> C * (error + AudioSource)
}.

(** The index of the first source whose ID is [id], counting from [i]. *)
Fixpoint indexOfID (id : string) (sources : list AudioSource) (i : nat) : option nat :=
  match sources with
  | [] => None
  | source :: rest =>
      if String.eqb (ID source) id then Some i else indexOfID id rest (S i)
  end.

(** The loop of [cycleAudioSource] with its fallback, [first] being
    [sources[0]]. *)
Definition nextSource (first : AudioSource) (sources : list AudioSource)
  (currentSource : AudioSource) : AudioSource :=
  match indexOfID (ID currentSource) sources 0 with
  | Some i => nth (Nat.modulo (i + 1) (length sources)) sources first
  | None => first
  end.

Section Executor.

Context {C : Type} `{AudioController C}.

Definition cycleAudioSource (c : C) : C * list ExecCall * option error :=
  match GetAudioSources c with
  | (c1, inl err) =>
      (c1, [CallGetAudioSources],
       Some (Errorf_w "fehler beim Abrufen der Audioquellen: " err))
  | (c1, inr []) =>
      (c1, [CallGetAudioSources], Some (Errorf "keine Audioquellen verfügbar"))
  | (c1, inr (first :: rest)) =>
      match GetDefaultAudioSource c1 with
      | (c2, inl err) =>
          (c2, [CallGetAudioSources; CallGetDefaultAudioSource],
           Some (Errorf_w "fehler beim Abrufen der aktuellen Audioquelle: " err))
      | (c2, inr currentSource) =>
          let next := nextSource first (first :: rest) currentSource in
          let '(c3, r) := SetDefaultAudioSource (ID next) c2 in
          (c3,
           [CallGetAudioSources; CallGetDefaultAudioSource;
            ExecLog LInfo "Wechsle zu Audioquelle"
              [("from", VString (Name currentSource)); ("to", VString (Name next))];
            CallSetDefaultAudioSource (ID next)],
           r)
      end
  end.

Definition validateSource (sourceID : string) (c : C) : C * list ExecCall * option error :=
  match GetAudioSources c with
  | (c1, inl _) => (c1, [CallGetAudioSources], None)
  | (c1, inr sources) =>
      if existsb (fun source => String.eqb (ID source) sourceID
                                || String.eqb (Name source) sourceID) sources
      then (c1, [CallGetAudioSources], None)
      else (c1, [CallGetAudioSources],
            Some (Errorf ("audioquelle '" +:+ sourceID +:+ "' nicht gefunden")))
  end.

End Executor.

End AudioSourceExecutor.

(** *** The application start executor: validation *)

Module AppStartExecutor.

Import Config.

(** The bytes 0 and 34 as one-character strings. *)
Definition nul : string := String (Ascii.ascii_of_nat 0) EmptyString.
Definition quote : string := String (Ascii.ascii_of_nat 34) EmptyString.

Definition forbiddenWindowsChars : list string :=
  ["<"; ">"; ":"; quote; "|"; "?"; "*"].

(** The loop over the forbidden characters: the first one found. *)
Fixpoint firstForbidden (path : string) (chars : list string) : option string :=
  match chars with
  | [] => None
  | char :: rest => if Contains path char then Some char else firstForbidden path rest
  end.

Definition validateWindowsPath (path : string) : option error :=
  if (String.length path =? 0)%nat then Some (Errorf "pfad darf nicht leer sein")
  else
    match firstForbidden path forbiddenWindowsChars with
    | Some char => Some (Errorf ("pfad enthält verbotenes Zeichen: " +:+ char))
    | None =>
        if (2 <=? String.length path)%nat
           && match String.get 1 path with
              | Some b => Ascii.eqb b ":"%char
              | None => false
              end
           && negb (HasPrefix path "C:\") && negb (HasPrefix path "D:\")
        then Some (Errorf ("ungültiger Laufwerksbuchstabe in Pfad: " +:+ path))
        else None
    end.

Definition validateLinuxPath (path : string) : option error :=
  if (String.length path =? 0)%nat then Some (Errorf "pfad darf nicht leer sein")
  else if Contains path nul then Some (Errorf "pfad enthält verbotenes Zeichen")
  else if HasPrefix path "/" && Contains path ".." then
    Some (Errorf "pfad enthält '..' was nicht erlaubt ist")
  else None.

Section Executor.

(** [runtime.GOOS], and [%v] of a parameter value. *)
Variable GOOS : string.
Variable fmtValue : ParamValue -> string.

Definition validatePath (path : string) : option error :=
  if String.eqb GOOS "windows" then validateWindowsPath path
  else if String.eqb GOOS "linux" then validateLinuxPath path
  else Some (Errorf ("plattform " +:+ GOOS +:+ " wird nicht unterstützt")).

(** The loop of [Validate] over a list-valued args parameter, [i] being the
    index of the head of [args]. *)
Fixpoint validateArgs (i : Z) (args : list ParamValue) : option error :=
  match args with
  | [] => None
  | PVString _ :: rest => validateArgs (i + 1) rest
  | _ :: _ => Some (Errorf ("arg " +:+ fmt_d i +:+ " muss ein String sein"))
  end.

Definition Validate (action : Action) : option error :=
  match Parameters action !! "path" with
  | None => Some (Errorf "app_start-Aktion benötigt 'path' Parameter")
  | Some (PVString pathStr) =>
      if String.eqb pathStr "" then Some (Errorf "'path' Parameter darf nicht leer sein")
      else
        match validatePath pathStr with
        | Some err => Some (Errorf_w "ungültiger Pfad: " err)
        | None =>
            let argsError :=
              match Parameters action !! "args" with
              | Some (PVList v) => validateArgs 0 v
              | Some (PVString _) => None
              | Some argsParam =>
                  Some (Errorf ("ungültiger 'args' Parameter: " +:+ fmtValue argsParam))
              | None => None
              end in
            match argsError with
            | Some err => Some err
            | None =>
                match Parameters action !! "working_dir" with
                | Some (PVString dirStr) =>
                    if negb (String.eqb dirStr "") then
                      match validatePath dirStr with
                      | Some err => Some (Errorf_w "ungültiges Arbeitsverzeichnis: " err)
                      | None => None
                      end
                    else None
                | Some _ => Some (Errorf "'working_dir' Parameter muss ein String sein")
                | None => None
                end
            end
        end
  | Some _ => Some (Errorf "'path' Parameter muss ein String sein")
  end.

End Executor.

End AppStartExecutor.

(** *** The key combination executor: validation *)

Module KeyCombinationExecutor.

Import Config.

(** The keys of the [validKeys] map of [validateWindowsKey]. *)
Definition validWindowsKeys : list string :=
  ["F1"; "F2"; "F3"; "F4"; "F5"; "F6"; "F7"; "F8"; "F9"; "F10"; "F11"; "F12";
   "CTRL"; "ALT"; "SHIFT"; "WIN";
   "UP"; "DOWN"; "LEFT"; "RIGHT"; "HOME"; "END"; "PAGEUP"; "PAGEDOWN";
   "ENTER"; "ESC"; "TAB"; "SPACE"; "BACKSPACE"; "DELETE"; "INSERT"].

(** The keys of the [validKeys] map of [validateLinuxKey]. *)
Definition validLinuxKeys : list string :=
  ["F1"; "F2"; "F3"; "F4"; "F5"; "F6"; "F7"; "F8"; "F9"; "F10"; "F11"; "F12";
   "CTRL"; "ALT"; "SHIFT"; "SUPER";
   "UP"; "DOWN"; "LEFT"; "RIGHT"; "HOME"; "END"; "PAGEUP"; "PAGEDOWN";
   "ENTER"; "ESC"; "TAB"; "SPACE"; "BACKSPACE"; "DELETE"; "INSERT"].

(** The keys of the [validTypes] map of [Validate]. *)
Definition validTypes : list string := ["combination"; "sequence"; "hold"; "text"].

Section Executor.

(** [runtime.GOOS], [strings.ToUpper], [%v] of a parameter value, whether
    the [float64] read from a number literal is below zero, and whether
    [time.ParseDuration] returns an error. *)
Variable GOOS : string.
Variable ToUpper : string -> string.
Variable fmtValue : ParamValue -> string.
Variable float64Negative : string -> bool.
Variable ParseDurationFails : string -> bool.

Definition validatePlatformKey (validKeys : list string) (key : string) : option error :=
  if (String.length key =? 1)%nat then None
  else if negb (existsb (String.eqb (ToUpper key)) validKeys) then
    Some (Errorf ("ungültige Taste: " +:+ key))
  else None.

Definition validateWindowsKey : string -> option error :=
  validatePlatformKey validWindowsKeys.

Definition validateLinuxKey : string -> option error :=
  validatePlatformKey validLinuxKeys.

Definition validateKey (key : string) : option error :=
  if String.eqb key "" then Some (Errorf "taste darf nicht leer sein")
  else if String.eqb GOOS "windows" then validateWindowsKey key
  else if String.eqb GOOS "linux" then validateLinuxKey key
  else Some (Errorf ("plattform " +:+ GOOS +:+ " wird nicht unterstützt")).

(** The loop over a list-valued keys parameter: the strings collected so
    far, in reverse, and the index of the head of [keys]. *)
Fixpoint collectKeys (i : Z) (acc : list string) (keys : list ParamValue)
  : error + list string :=
  match keys with
  | [] => inr (rev acc)
  | PVString keyStr :: rest => collectKeys (i + 1) (keyStr :: acc) rest
  | _ :: _ => inl (Errorf ("key " +:+ fmt_d i +:+ " muss ein String sein"))
  end.

(** The loop that validates the keys, [i] being the index of the head of
    [keyList]. *)
Fixpoint validateKeys (i : Z) (keyList : list string) : option error :=
  match keyList with
  | [] => None
  | key :: rest =>
      match validateKey key with
      | Some err => Some (Errorf_w ("ungültige Taste " +:+ fmt_d i +:+ ": ") err)
      | None => validateKeys (i + 1) rest
      end
  end.

(** The check of the delay and of the duration parameter, which differ in
    their messages only. *)
Definition validateTime (action : Action) (key negative unparsable : string)
  : option error :=
  match Parameters action !! key with
  | Some (PVNumber literal) =>
      if float64Negative literal then Some (Errorf negative) else None
  | Some (PVString v) =>
      if ParseDurationFails v then Some (Errorf (unparsable +:+ v)) else None
  | Some param =>
      Some (Errorf ("ungültiger '" +:+ key +:+ "' Parameter: " +:+ fmtValue param))
  | None => None
  end.

Definition Validate (action : Action) : option error :=
  match Parameters action !! "keys" with
  | None => Some (Errorf "key_combination-Aktion benötigt 'keys' Parameter")
  | Some keys =>
      let collected : error + list string :=
        match keys with
        | PVList v => collectKeys 0 [] v
        | PVString _ => inr []
        | _ => inl (Errorf ("ungültiger 'keys' Parameter: " +:+ fmtValue keys))
        end in
      match collected with
      | inl err => Some err
      | inr keyList =>
          if (length keyList =? 0)%nat then
            Some (Errorf "'keys' Parameter darf nicht leer sein")
          else
            match validateKeys 0 keyList with
            | Some err => Some err
            | None =>
                let typeError :=
                  match Parameters action !! "type" with
                  | Some (PVString typeStr) =>
                      if negb (existsb (String.eqb typeStr) validTypes) then
                        Some (Errorf ("ungültiger Typ: " +:+ typeStr))
                      else if String.eqb typeStr "hold"
                              && negb (length keyList =? 1)%nat then
                        Some (Errorf "'hold' Typ benötigt genau eine Taste")
                      else None
                  | Some _ => Some (Errorf "'type' Parameter muss ein String sein")
                  | None => None
                  end in
                match typeError with
                | Some err => Some err
                | None =>
                    match validateTime action "delay" "delay muss positiv sein"
                            "ungültiger delay: " with
                    | Some err => Some err
                    | None =>
                        validateTime action "duration" "duration muss positiv sein"
                          "ungültige duration: "
                    end
                end
            end
      end
  end.

End Executor.

End KeyCombinationExecutor.

(** ** Sample data for the executors *)

Module ExecutorSample.

(** The decimal digits at the head of a string, and what follows them. *)
Fixpoint takeDigits (s : string) : string * string :=
  match s with
  | EmptyString => ("", "")
  | String c rest =>
      match digitValue c with
      | Some _ => let '(digits, tail) := takeDigits rest in (String c digits, tail)
      | None => ("", s)
      end
  end.

(** [int(v)] for the [float64] that the decoder reads from a JSON number
    literal, [-]digits[.digits][e[+-]digits]: the value of the literal
    truncated toward zero (2.5 gives 2, 1e2 gives 100, -7.9 gives -7).
    This is Go's result where the literal is a [float64] exactly and the
    value fits an [int]. *)
Definition float64ToInt (literal : string) : Z :=
  let negative :=
    match literal with
    | String c _ => Ascii.eqb c "-"%char
    | EmptyString => false
    end in
  let body :=
    match literal with
    | String c rest => if Ascii.eqb c "-"%char then rest else literal
    | EmptyString => literal
    end in
  let '(whole, afterWhole) := takeDigits body in
  let '(fraction, afterFraction) :=
    match afterWhole with
    | String c rest => if Ascii.eqb c "."%char then takeDigits rest else ("", afterWhole)
    | EmptyString => ("", afterWhole)
    end in
  let exponent :=
    match afterFraction with
    | EmptyString => Some 0
    | String c rest =>
        if Ascii.eqb c "e"%char || Ascii.eqb c "E"%char then Atoi rest else None
    end in
  match parseDigits 0 (whole +:+ fraction), exponent with
  | Some digits, Some e =>
      let shift := e - Z.of_nat (String.length fraction) in
      let magnitude :=
        if shift >=? 0 then digits * 10 ^ shift else digits / 10 ^ (- shift) in
      if negative then - magnitude else magnitude
  | _, _ => 0
  end.

(** [%v] on strings; other values are not printed in the samples. *)
Definition fmtValue (v : Config.ParamValue) : string :=
  match v with Config.PVString s => s | _ => "?" end.

Definition volume (direction : string) (extra : list (string * Config.ParamValue))
  : Config.Action :=
  {| Config.AType := "volume";
     Config.Parameters :=
       <["direction" := Config.PVString direction]> (list_to_map extra) |}.

Definition source (id name : string) : AudioSourceExecutor.AudioSource :=
  {| AudioSourceExecutor.ID := id; AudioSourceExecutor.Name := name;
     AudioSourceExecutor.Type_ := "speakers"; AudioSourceExecutor.IsDefault := false;
     AudioSourceExecutor.IsMuted := false; AudioSourceExecutor.Volume := 50;
     AudioSourceExecutor.IsAvailable := true |}.

(** [linuxAudioController]'s three sources. *)
Definition linuxSources : list AudioSourceExecutor.AudioSource :=
  [source "analog-stereo" "Analoger Stereo-Ausgang"; source "hdmi-stereo" "HDMI Stereo";
   source "bluetooth" "Bluetooth Audio"].

(** A controller that remembers the default it was given: its state is the
    ID of the default source. *)
#[export] Instance rememberingController : AudioSourceExecutor.AudioController string := {|
  AudioSourceExecutor.GetAudioSources c := (c, inr linuxSources);
  AudioSourceExecutor.SetDefaultAudioSource id c := (id, None);
  AudioSourceExecutor.GetDefaultAudioSource c := (c, inr (source c c))
|}.

End ExecutorSample.

(** * Properties *)

(** ** Loading a configuration *)

Section LoadFacts.

Import Config.

Lemma enableMapping_Enabled (m : Mapping) : Enabled (enableMapping m) = true.
Proof. unfold enableMapping. destruct (Enabled m) eqn:E; simpl; auto. Qed.

Lemma setDefaults_Enabled (config : Config) :
  Forall (fun m => Enabled m = true) (Mappings (setDefaults config)).
Proof.
  unfold setDefaults; simpl.
  induction (Mappings config) as [|m ms IH]; simpl; constructor; auto.
  apply enableMapping_Enabled.
Qed.

Lemma setDefaults_Channel (config : Config) :
  Channel (MIDI (setDefaults config)) =
  if Channel (MIDI config) =? 0 then -1 else Channel (MIDI config).
Proof. reflexivity. Qed.

Lemma setDefaults_Channel_nonzero (config : Config) :
  Channel (MIDI (setDefaults config)) <> 0.
Proof.
  rewrite setDefaults_Channel.
  destruct (Z.eqb_spec (Channel (MIDI config)) 0); lia.
Qed.

(** A successful [Load] returns the decoded configuration after
    [setDefaults]. *)
Lemma Load_inr (env : Env) (path : string) (config : Config) :
  Load env path = inr config ->
  exists absPath file decoded,
    Abs env path = inr absPath /\ Open env absPath = inr file /\
    Decode env file = inr decoded /\ validate (setDefaults decoded) = None /\
    config = setDefaults decoded.
Proof.
  unfold Load. intros HL.
  destruct (Abs env path) as [e|absPath]; [discriminate|].
  destruct (Open env absPath) as [e|file] eqn:HO; [discriminate|].
  destruct (Decode env file) as [e|decoded] eqn:HD; [discriminate|].
  destruct (validate (setDefaults decoded)) eqn:HV; [discriminate|].
  exists absPath, file, decoded. inversion HL; subst. auto.
Qed.

Lemma Load_ok (env : Env) (path absPath file : string) (decoded : Config) :
  Abs env path = inr absPath -> Open env absPath = inr file ->
  Decode env file = inr decoded -> validate (setDefaults decoded) = None ->
  Load env path = inr (setDefaults decoded).
Proof. unfold Load. intros -> -> -> ->. reflexivity. Qed.

End LoadFacts.

(** C9.  For a configuration file that parses and validates, [Load] returns
    a configuration, with as many mappings as the file declares, in which
    every mapping has [Enabled] true: a mapping declared disabled does not
    come out of [Load] disabled. *)
Theorem Load_enables_every_mapping
  (env : Config.Env) (path absPath file : string) (decoded : Config.Config) :
  Config.Abs env path = inr absPath ->
  Config.Open env absPath = inr file ->
  Config.Decode env file = inr decoded ->
  Config.validate (Config.setDefaults decoded) = None ->
  exists config,
    Config.Load env path = inr config /\
    length (Config.Mappings config) = length (Config.Mappings decoded) /\
    Forall (fun m => Config.Enabled m = true) (Config.Mappings config).
Proof.
  intros HA HO HD HV. exists (Config.setDefaults decoded).
  split; [exact (Load_ok env path absPath file decoded HA HO HD HV)|].
  split; [simpl; apply length_map | apply setDefaults_Enabled].
Qed.

Lemma Load_enables_every_mapping_witness :
  Config.Enabled (Sample.mapping "Off" Sample.filterCC7 false) = false /\
  In (Sample.mapping "Off" Sample.filterCC7 false) (Config.Mappings Sample.declared) /\
  exists config,
    Config.Load Sample.env "config.json" = inr config /\
    length (Config.Mappings config) = length (Config.Mappings Sample.declared) /\
    Forall (fun m => Config.Enabled m = true) (Config.Mappings config).
Proof.
  split; [reflexivity|]. split; [simpl; auto|].
  apply (Load_enables_every_mapping Sample.env "config.json" "/etc/config.json"
           "{...}" Sample.declared); vm_compute; reflexivity.
Defined.

(** C10.  For a configuration file that parses and validates and declares
    MIDI channel 0, [Load] returns a configuration whose channel is -1 (all
    channels); no configuration returned by [Load] has channel 0. *)
Theorem Load_channel_zero_is_all_channels
  (env : Config.Env) (path absPath file : string) (decoded : Config.Config) :
  Config.Abs env path = inr absPath ->
  Config.Open env absPath = inr file ->
  Config.Decode env file = inr decoded ->
  Config.validate (Config.setDefaults decoded) = None ->
  (Config.Channel (Config.MIDI decoded) = 0 ->
   exists config,
     Config.Load env path = inr config /\
     Config.Channel (Config.MIDI config) = -1) /\
  (forall config,
     Config.Load env path = inr config ->
     Config.Channel (Config.MIDI config) <> 0).
Proof.
  intros HA HO HD HV. split.
  - intros H0. exists (Config.setDefaults decoded).
    split; [exact (Load_ok env path absPath file decoded HA HO HD HV)|].
    rewrite setDefaults_Channel, H0. reflexivity.
  - intros config HL.
    destruct (Load_inr env path config HL) as (a & f & d & _ & _ & _ & _ & ->).
    apply setDefaults_Channel_nonzero.
Qed.

Lemma Load_channel_zero_is_all_channels_witness :
  Config.Channel (Config.MIDI Sample.declared) = 0 /\
  exists config,
    Config.Load Sample.env "config.json" = inr config /\
    Config.Channel (Config.MIDI config) = -1.
Proof.
  split; [reflexivity|].
  refine (proj1 (Load_channel_zero_is_all_channels Sample.env "config.json"
                   "/etc/config.json" "{...}" Sample.declared _ _ _ _) _);
    vm_compute; reflexivity.
Defined.

(** ** The matcher *)

Section MatcherFacts.

Import Midi.

Lemma matchesMapping_type_differs (E : MIDIEvent) (F : Config.MIDIEvent) :
  Type_ E <> Config.Type_ F -> matchesMapping E F = false.
Proof.
  intros Hne. unfold matchesMapping.
  destruct (String.eqb_spec (Type_ E) (Config.Type_ F)); [contradiction|reflexivity].
Qed.

Lemma matchesMapping_note (E : MIDIEvent) (F : Config.MIDIEvent) :
  Type_ E = Config.Type_ F ->
  Type_ E = "note_on" \/ Type_ E = "note_off" ->
  matchesMapping E F =
  (Note E =? Config.Note F)
  && negb ((Config.Velocity F >? 0) && (Velocity E <? Config.Velocity F)).
Proof.
  intros HT Hty. unfold matchesMapping. rewrite <- HT, String.eqb_refl. simpl.
  assert (String.eqb (Type_ E) "note_on" || String.eqb (Type_ E) "note_off" = true) as ->.
  { destruct Hty as [-> | ->]; reflexivity. }
  destruct (Note E =? Config.Note F); simpl; [|reflexivity].
  destruct ((Config.Velocity F >? 0) && (Velocity E <? Config.Velocity F)); reflexivity.
Qed.

Lemma matchesMapping_control_change (E : MIDIEvent) (F : Config.MIDIEvent) :
  Type_ E = Config.Type_ F ->
  Type_ E = "control_change" ->
  matchesMapping E F =
  (Controller E =? Config.Controller F)
  && negb ((Config.Value F >? 0) && (Value E <? Config.Value F)).
Proof.
  intros HT Hty. unfold matchesMapping. rewrite <- HT, String.eqb_refl, Hty. simpl.
  destruct (Controller E =? Config.Controller F); simpl; [|reflexivity].
  destruct ((Config.Value F >? 0) && (Value E <? Config.Value F)); reflexivity.
Qed.

(** The test [t > 0 && x < t] of both cases, as a threshold. *)
Lemma threshold_gate (x t : Z) :
  let pass := negb ((t >? 0) && (x <? t)) in
  (t = 0 -> pass = true) /\
  (t > 0 -> (pass = false <-> x < t) /\ (pass = true <-> x >= t)).
Proof.
  simpl. destruct (Z.gtb_spec t 0), (Z.ltb_spec x t); simpl;
    repeat split; intros; try lia; try congruence.
Qed.

End MatcherFacts.

(** C3.  For an event and a filter of equal type and equal note (note_on,
    note_off) or equal controller (control_change): a filter threshold of 0
    matches every incoming velocity (value); a positive threshold fails to
    match exactly when the incoming velocity (value) is below it and matches
    exactly when it is at least the threshold. *)
Theorem matchesMapping_threshold (E : Midi.MIDIEvent) (F : Config.MIDIEvent) :
  Midi.Type_ E = Config.Type_ F ->
  (Midi.Type_ E = "note_on" \/ Midi.Type_ E = "note_off" ->
   Midi.Note E = Config.Note F ->
   (Config.Velocity F = 0 -> Midi.matchesMapping E F = true) /\
   (Config.Velocity F > 0 ->
    (Midi.matchesMapping E F = false <-> Midi.Velocity E < Config.Velocity F) /\
    (Midi.matchesMapping E F = true <-> Midi.Velocity E >= Config.Velocity F))) /\
  (Midi.Type_ E = "control_change" ->
   Midi.Controller E = Config.Controller F ->
   (Config.Value F = 0 -> Midi.matchesMapping E F = true) /\
   (Config.Value F > 0 ->
    (Midi.matchesMapping E F = false <-> Midi.Value E < Config.Value F) /\
    (Midi.matchesMapping E F = true <-> Midi.Value E >= Config.Value F))).
Proof.
  intros HT. split.
  - intros Hty HN. rewrite (matchesMapping_note E F HT Hty), HN, Z.eqb_refl.
    apply threshold_gate.
  - intros Hty HC. rewrite (matchesMapping_control_change E F HT Hty), HC, Z.eqb_refl.
    apply threshold_gate.
Qed.

Lemma matchesMapping_threshold_witness :
  (Midi.matchesMapping (Sample.noteOn 0 60 99) Sample.filterNote60 = false <-> 99 < 100) /\
  (Midi.matchesMapping (Sample.cc 3 7 90) Sample.filterCC7 = true <-> 90 >= 64).
Proof.
  split.
  - refine (proj1 (proj2 (proj1 (matchesMapping_threshold (Sample.noteOn 0 60 99)
                                   Sample.filterNote60 _) _ _) _)).
    + reflexivity.
    + left; reflexivity.
    + reflexivity.
    + simpl; lia.
  - refine (proj2 (proj2 (proj2 (matchesMapping_threshold (Sample.cc 3 7 90)
                                   Sample.filterCC7 _) _ _) _)).
    + reflexivity.
    + reflexivity.
    + reflexivity.
    + simpl; lia.
Defined.

Lemma knownType_false (ty : string) :
  knownType ty = false ->
  String.eqb ty "note_on" = false /\ String.eqb ty "note_off" = false /\
  String.eqb ty "control_change" = false /\ String.eqb ty "program_change" = false.
Proof.
  unfold knownType. intros Hk.
  repeat (apply orb_false_elim in Hk; destruct Hk as [Hk ?]). auto.
Qed.

(** C4, as the code has it.  For a filter whose type is none of note_on,
    note_off, control_change and program_change: an event of a different
    type does not match, an event carrying the same type string does match;
    configuration validation rejects such a filter. *)
Theorem matchesMapping_unknown_type (E : Midi.MIDIEvent) (F : Config.MIDIEvent) :
  knownType (Config.Type_ F) = false ->
  (Midi.Type_ E <> Config.Type_ F -> Midi.matchesMapping E F = false) /\
  (Midi.Type_ E = Config.Type_ F -> Midi.matchesMapping E F = true) /\
  Config.validateMIDIEvent F = Some (Errorf ("ungültiger Event-Typ: " +:+ Config.Type_ F)).
Proof.
  intros Hk. destruct (knownType_false _ Hk) as (H1 & H2 & H3 & H4).
  split; [apply matchesMapping_type_differs|]. split.
  - intros HT. unfold Midi.matchesMapping.
    rewrite HT, String.eqb_refl, H1, H2, H3, H4. reflexivity.
  - unfold Config.validateMIDIEvent. rewrite H1, H2, H3, H4. reflexivity.
Qed.

Lemma matchesMapping_unknown_type_witness :
  Midi.matchesMapping Sample.pitchBend Sample.filterPitchBend = true /\
  Midi.matchesMapping (Sample.noteOn 0 60 100) Sample.filterPitchBend = false.
Proof.
  pose proof (matchesMapping_unknown_type Sample.pitchBend Sample.filterPitchBend
                ltac:(reflexivity)) as (_ & Hsame & _).
  pose proof (matchesMapping_unknown_type (Sample.noteOn 0 60 100) Sample.filterPitchBend
                ltac:(reflexivity)) as (Hdiff & _ & _).
  split; [apply Hsame; reflexivity | apply Hdiff; discriminate].
Defined.

(** C4 with never-matches for every unknown filter type fails: a filter of
    the unknown type pitch_bend matches the event that carries the same type
    string. *)
Lemma matchesMapping_unknown_type_counterexample :
  ~ (forall (E : Midi.MIDIEvent) (F : Config.MIDIEvent),
       knownType (Config.Type_ F) = false -> Midi.matchesMapping E F = false).
Proof.
  intros Hclaim.
  specialize (Hclaim Sample.pitchBend Sample.filterPitchBend ltac:(reflexivity)).
  vm_compute in Hclaim. discriminate.
Qed.

(** ** The per-event dispatch *)

Section DispatchFacts.

Import Midi.
Context {World P : Type}.
Implicit Types (h : Handler World P) (event : MIDIEvent) (ms : list Config.Mapping).

Lemma executes_app (cs1 cs2 : list Call) :
  executes (cs1 ++ cs2) = executes cs1 ++ executes cs2.
Proof.
  induction cs1 as [|c cs1 IH]; simpl; [reflexivity|].
  destruct c; simpl; rewrite ?IH; reflexivity.
Qed.

Lemma matchTests_app (cs1 cs2 : list Call) :
  matchTests (cs1 ++ cs2) = matchTests cs1 ++ matchTests cs2.
Proof.
  induction cs1 as [|c cs1 IH]; simpl; [reflexivity|].
  destruct c; simpl; rewrite ?IH; reflexivity.
Qed.

Lemma filter_none {A : Type} (f : A -> bool) (l : list A) :
  (forall x, In x l -> f x = false) -> List.filter f l = [].
Proof.
  induction l as [|x l IH]; simpl; intros Hnone; [reflexivity|].
  rewrite (Hnone x (or_introl eq_refl)). apply IH.
  intros y Hin. apply Hnone. right; exact Hin.
Qed.

(** The loop starts one goroutine per firing mapping, in configured order. *)
Lemma handleMappings_executes h event ms :
  executes (handleMappings h event ms) = List.filter (fires event) ms.
Proof.
  induction ms as [|m ms IH]; simpl; [reflexivity|].
  rewrite executes_app, IH. unfold fires at 2.
  destruct (Config.Enabled m); simpl; [|reflexivity].
  destruct (matchesMapping event (Config.Event m)); simpl; [|reflexivity].
  destruct (_ >? 0); reflexivity.
Qed.

(** The loop tests the filter of every enabled mapping, and of no other. *)
Lemma handleMappings_matchTests h event ms :
  matchTests (handleMappings h event ms) =
  map Config.Event (List.filter Config.Enabled ms).
Proof.
  induction ms as [|m ms IH]; simpl; [reflexivity|].
  rewrite matchTests_app, IH.
  destruct (Config.Enabled m); simpl; [|reflexivity].
  destruct (matchesMapping event (Config.Event m)); simpl; [|reflexivity].
  destruct (_ >? 0); reflexivity.
Qed.

Lemma handleEvent_accepted h event :
  Config.Channel (Config.MIDI (config h)) = -1 \/
  Channel event = Config.Channel (Config.MIDI (config h)) ->
  exists fields,
    handleEvent h event =
    Log LDebug "MIDI-Event empfangen" fields
    :: handleMappings h event (Config.Mappings (config h)).
Proof.
  intros Hacc. unfold handleEvent. eexists.
  destruct (Z.eqb_spec (Config.Channel (Config.MIDI (config h))) (-1)) as [?|Hc];
    [reflexivity|].
  destruct (Z.eqb_spec (Channel event) (Config.Channel (Config.MIDI (config h))));
    [reflexivity|]. destruct Hacc; contradiction.
Qed.

Lemma matchesMapping_setChannel event (c : Z) (F : Config.MIDIEvent) :
  matchesMapping (setChannel event c) F = matchesMapping event F.
Proof. reflexivity. Qed.

Lemma handleMappings_setChannel h event (c : Z) ms :
  handleMappings h (setChannel event c) ms = handleMappings h event ms.
Proof.
  induction ms as [|m ms IH]; simpl; [reflexivity|].
  rewrite IH, matchesMapping_setChannel. reflexivity.
Qed.

(** A goroutine calls the manager once, on the action of its mapping. *)
Lemma executeTask_executes h (m : Config.Mapping) (w : World) :
  (executeTask h m w).1 = afterExecute (actionMgr h) w (Config.Action_ m) /\
  List.filter isExecutorCall (executeTask h m w).2
  = executorCallFor (actionMgr h) (Config.Action_ m).
Proof.
  unfold executeTask, afterExecute, executorCallFor, Actions.GetExecutor, Actions.Execute.
  destruct (Actions.executors (actionMgr h) !! Config.AType (Config.Action_ m))
    as [executor|]; simpl; [|auto].
  destruct (Actions.Execute_ executor (Config.Action_ m) w) as [w1 [err|]]; simpl; auto.
Qed.

Lemma runGoroutines_executes h (order : list Config.Mapping) (w : World) :
  (runGoroutines h order w).1
  = fold_left (afterExecute (actionMgr h)) (map Config.Action_ order) w /\
  List.filter isExecutorCall (runGoroutines h order w).2
  = flat_map (fun m => executorCallFor (actionMgr h) (Config.Action_ m)) order.
Proof.
  revert w. induction order as [|m order IH]; intros w; simpl; [auto|].
  destruct (executeTask_executes h m w) as [Hw1 Hc1].
  destruct (executeTask h m w) as [w1 c1]. simpl in Hw1, Hc1.
  destruct (IH w1) as [Hw Hc].
  destruct (runGoroutines h order w1) as [w2 c2]. simpl in *.
  rewrite List.filter_app, Hc1, Hc, <- Hw1, Hw. auto.
Qed.

Lemma executorCallFor_registered (mgr : Actions.Manager World) ms :
  (forall m, In m ms ->
     is_Some (Actions.GetExecutor mgr (Config.AType (Config.Action_ m)))) ->
  length (flat_map (fun m => executorCallFor mgr (Config.Action_ m)) ms) = length ms.
Proof.
  induction ms as [|m ms IH]; simpl; intros Hreg; [reflexivity|].
  rewrite length_app, IH by (intros m' Hin; apply Hreg; right; exact Hin).
  destruct (Hreg m (or_introl eq_refl)) as [executor Hex].
  unfold executorCallFor. rewrite Hex. reflexivity.
Qed.

End DispatchFacts.

(** C1.  For an event the channel filter accepts, the goroutines that
    [handleEvent] starts to execute an action are those of the enabled
    mappings whose filter matches the event, one each and in configured
    order: N such mappings give N goroutines, a mapping that is not enabled
    gets none, and when no mapping fires none is started, so that nothing
    is executed and no error is logged.  In whatever order these
    goroutines run, each calls the manager's [Execute] once, on the action
    of its mapping: the platform ends as these calls leave it, one after
    the other, every mapping whose action type has an executor gives
    exactly one call of that executor, and when every type is registered
    the executor calls are as many as the mappings that fire. *)
Theorem handleEvent_fanout {World P : Type}
  (h : Midi.Handler World P) (event : Midi.MIDIEvent) :
  Config.Channel (Config.MIDI (Midi.config h)) = -1 \/
  Midi.Channel event = Config.Channel (Config.MIDI (Midi.config h)) ->
  let fired := executes (Midi.handleEvent h event) in
  let mappings := Config.Mappings (Midi.config h) in
  fired = List.filter (fires event) mappings /\
  (forall N : nat, length (List.filter (fires event) mappings) = N -> length fired = N) /\
  (forall m, Config.Enabled m = false -> ~ In m fired) /\
  ((forall m, In m mappings -> fires event m = false) ->
   fired = [] /\ forall w : World, runGoroutines h fired w = (w, [])) /\
  (forall (order : list Config.Mapping) (w : World),
     Permutation order fired ->
     let run := runGoroutines h order w in
     run.1 = fold_left (afterExecute (Midi.actionMgr h)) (map Config.Action_ order) w /\
     List.filter isExecutorCall run.2
     = flat_map (fun m => executorCallFor (Midi.actionMgr h) (Config.Action_ m)) order /\
     ((forall m, In m fired ->
         is_Some (Actions.GetExecutor (Midi.actionMgr h)
                    (Config.AType (Config.Action_ m)))) ->
      length (List.filter isExecutorCall run.2)
      = length (List.filter (fires event) mappings))).
Proof.
  intros Hacc fired mappings.
  assert (fired = List.filter (fires event) mappings) as Hfired.
  { unfold fired. destruct (handleEvent_accepted h event Hacc) as [fields ->]. simpl.
    apply handleMappings_executes. }
  split; [exact Hfired|]. split; [intros N <-; rewrite Hfired; reflexivity|].
  split; [|split].
  - intros m Hoff Hin. rewrite Hfired in Hin.
    apply filter_In in Hin. destruct Hin as [_ Hf].
    unfold fires in Hf. rewrite Hoff in Hf. discriminate.
  - intros Hnone.
    assert (fired = []) as Hnil by (rewrite Hfired; apply filter_none; exact Hnone).
    split; [exact Hnil|]. rewrite Hnil. reflexivity.
  - intros order w Hperm run.
    destruct (runGoroutines_executes h order w) as [Hw Hc]. fold run in Hw, Hc.
    split; [exact Hw|]. split; [exact Hc|].
    intros Hreg. rewrite Hc, executorCallFor_registered.
    + rewrite <- Hfired. apply Permutation_length. exact Hperm.
    + intros m Hin. apply Hreg. exact (Permutation_in m Hperm Hin).
Qed.

(** Two mappings fire; their goroutines, in the order started or in the
    other, raise the volume from 50 to 60 with one executor call each. *)
Lemma handleEvent_fanout_witness :
  let h := Sample.linuxHandler Sample.onChannel3 in
  let fired := executes (Midi.handleEvent h (Sample.cc 3 7 90)) in
  map Config.Name fired = ["Volume"; "Volume again"] /\
  (runGoroutines h (rev fired) 50).1 = 60 /\
  length (List.filter isExecutorCall (runGoroutines h (rev fired) 50).2) = 2%nat.
Proof.
  intros h fired.
  destruct (handleEvent_fanout h (Sample.cc 3 7 90) (or_intror eq_refl))
    as (Hfired & _ & _ & _ & Hrun).
  fold fired in Hfired, Hrun.
  destruct (Hrun (rev fired) 50 (Permutation_sym (Permutation_rev fired)))
    as (Hw & _ & Hn).
  split; [rewrite Hfired; reflexivity|].
  split; [rewrite Hw, Hfired; vm_compute; reflexivity|].
  rewrite Hn; [reflexivity|].
  rewrite Hfired. intros m Hin.
  apply filter_In in Hin. destruct Hin as [Hin _].
  simpl in Hin.
  destruct Hin as [<-|[<-|[<-|[<-|[]]]]]; exists Sample.volumeExecutor; reflexivity.
Defined.

(** C2.  When the configured channel is not -1 and differs from the event's
    channel, [handleEvent] returns without a single call: no mapping is
    tested, nothing is executed, nothing is logged.  When the configured
    channel is -1, the event's channel changes no call of [handleEvent]
    other than the debug log line that reports it: the same filters are
    tested, the same actions are executed and the same delays are slept, in
    the same order. *)
Theorem handleEvent_channel_filter {World P : Type}
  (h : Midi.Handler World P) (event : Midi.MIDIEvent) :
  let channel := Config.Channel (Config.MIDI (Midi.config h)) in
  (channel <> -1 -> Midi.Channel event <> channel ->
   Midi.handleEvent h event = [] /\
   matchTests (Midi.handleEvent h event) = [] /\
   executes (Midi.handleEvent h event) = []) /\
  (channel = -1 ->
   forall c : Z,
     withoutLogs (Midi.handleEvent h (setChannel event c))
     = withoutLogs (Midi.handleEvent h event)).
Proof.
  intros channel. split.
  - intros Hall Hdiff.
    assert (Midi.handleEvent h event = []) as ->; [|auto].
    unfold Midi.handleEvent. fold channel.
    destruct (Z.eqb_spec channel (-1)); [contradiction|].
    destruct (Z.eqb_spec (Midi.Channel event) channel); [contradiction|reflexivity].
  - intros Hall c.
    destruct (handleEvent_accepted h (setChannel event c) (or_introl Hall)) as [f1 ->].
    destruct (handleEvent_accepted h event (or_introl Hall)) as [f2 ->].
    rewrite handleMappings_setChannel. reflexivity.
Qed.

Lemma handleEvent_channel_filter_witness :
  Midi.handleEvent (Sample.linuxHandler Sample.onChannel3) (Sample.cc 2 7 90) = [] /\
  withoutLogs
    (Midi.handleEvent (Sample.linuxHandler (Config.setDefaults Sample.declared))
       (setChannel (Sample.cc 2 7 90) 9))
  = withoutLogs
      (Midi.handleEvent (Sample.linuxHandler (Config.setDefaults Sample.declared))
         (Sample.cc 2 7 90)).
Proof.
  split.
  - refine (proj1 (proj1 (handleEvent_channel_filter
                            (Sample.linuxHandler Sample.onChannel3) (Sample.cc 2 7 90)) _ _));
      simpl; lia.
  - refine (proj2 (handleEvent_channel_filter
                     (Sample.linuxHandler (Config.setDefaults Sample.declared))
                     (Sample.cc 2 7 90)) _ 9).
    reflexivity.
Defined.

(** ** The executor registry *)

Section StringFacts.

Lemma append_empty_r (s : string) : s +:+ "" = s.
Proof.
  induction s as [|a s IH]; [reflexivity|].
  change (String a (s +:+ "") = String a s). rewrite IH. reflexivity.
Qed.

Lemma append_assoc (s t u : string) : (s +:+ t) +:+ u = s +:+ t +:+ u.
Proof.
  induction s as [|a s IH]; [reflexivity|].
  change (String a ((s +:+ t) +:+ u) = String a (s +:+ t +:+ u)). rewrite IH. reflexivity.
Qed.

Lemma contains_middle (pre s post : string) : contains (pre +:+ s +:+ post) s.
Proof. exists pre, post. reflexivity. Qed.

Lemma contains_suffix (pre s : string) : contains (pre +:+ s) s.
Proof. exists pre, "". rewrite append_empty_r. reflexivity. Qed.

Lemma contains_append_r (t u s : string) : contains t s -> contains (t +:+ u) s.
Proof.
  intros (pre & post & ->). exists pre, (post +:+ u).
  rewrite !append_assoc. reflexivity.
Qed.

End StringFacts.

Section RegistryFacts.

Import Actions.
Context {World : Type}.

Lemma registerExecutor_lookup (m : Manager World) (executor : Executor World) :
  executors (registerExecutor m executor) !! GetName executor = Some executor.
Proof. unfold registerExecutor; simpl. apply lookup_insert_eq. Qed.

Lemma registerExecutor_lookup_ne (m : Manager World) (executor : Executor World)
  (ty : string) :
  GetName executor <> ty ->
  executors (registerExecutor m executor) !! ty = executors m !! ty.
Proof. intros Hne. unfold registerExecutor; simpl. by apply lookup_insert_ne. Qed.

Lemma emptyManager_lookup (ty : string) :
  executors (emptyManager (World := World)) !! ty = None.
Proof. unfold emptyManager; simpl. apply lookup_empty. Qed.

End RegistryFacts.

(** C8.  For an action whose type has no registered executor, [Execute]
    returns an error whose message contains the action type, calls no
    executor and leaves the platform as it is, and [ValidateAction] returns
    an error whose message contains the action type and calls no executor.
    When the registered executor's [Execute] fails, [Execute] returns an
    error that wraps the executor's error and whose message contains the
    action type and the executor's message. *)
Theorem Manager_unregistered_type {World : Type}
  (m : Actions.Manager World) (action : Config.Action) (w : World) :
  (Actions.executors m !! Config.AType action = None ->
   (exists err,
      Actions.Execute m action w = (w, [], Some err) /\
      contains (Error err) (Config.AType action)) /\
   (exists err,
      Actions.ValidateAction m action = ([], Some err) /\
      contains (Error err) (Config.AType action))) /\
  (forall executor w' e,
     Actions.executors m !! Config.AType action = Some executor ->
     Actions.Execute_ executor action w = (w', Some e) ->
     exists err calls,
       Actions.Execute m action w = (w', calls, Some err) /\
       Unwrap err = Some e /\
       contains (Error err) (Config.AType action) /\
       contains (Error err) (Error e)).
Proof.
  split.
  - intros Hnone. split.
    + unfold Actions.Execute. rewrite Hnone.
      eexists. split; [reflexivity|]. simpl. apply contains_middle.
    + unfold Actions.ValidateAction, Actions.GetExecutor. rewrite Hnone.
      eexists. split; [reflexivity|]. simpl. apply contains_suffix.
  - intros executor w' e Hsome Hfail.
    unfold Actions.Execute. rewrite Hsome, Hfail.
    eexists. eexists. split; [reflexivity|]. split; [reflexivity|]. split.
    + simpl. apply contains_append_r, contains_middle.
    + simpl. apply contains_suffix.
Qed.

Lemma Manager_unregistered_type_witness :
  (exists err,
     Actions.Execute Sample.manager Sample.unknownAction 40 = (40, [], Some err) /\
     contains (Error err) "unknown_type") /\
  (exists err calls,
     Actions.Execute Sample.manager Sample.volumeUp 98 = (98, calls, Some err) /\
     Unwrap err = Some (Errorf "volume out of range") /\
     contains (Error err) "volume" /\
     contains (Error err) "volume out of range").
Proof.
  split.
  - refine (proj1 (proj1 (Manager_unregistered_type Sample.manager
                            Sample.unknownAction 40) _)).
    vm_compute; reflexivity.
  - refine (proj2 (Manager_unregistered_type Sample.manager Sample.volumeUp 98)
              Sample.volumeExecutor 98 (Errorf "volume out of range") _ _);
      vm_compute; reflexivity.
Defined.

(** ** The lifecycle *)

Section LifecycleFacts.

Import Midi.
Context {World P : Type} `{MIDIPort P}.
Implicit Types (h : Handler World P).

Lemma Close_not_running h : isRunning h = false -> Close h = (h, [], Return None).
Proof. intros Hr. unfold Close. rewrite Hr. reflexivity. Qed.

(** A [Close] that returns leaves the handler not running. *)
Lemma Close_returns_not_running h h1 (cs : list Call) (r : option error) :
  Close h = (h1, cs, Return r) -> isRunning h1 = false.
Proof.
  unfold Close. destruct (isRunning h) eqn:Hr; simpl.
  - destruct (Close_ (port h)) as [p e].
    destruct (doneClosed h); [discriminate|].
    destruct (eventChanClosed h); [discriminate|].
    intros Heq. inversion Heq; subst. reflexivity.
  - intros Heq. inversion Heq; subst. exact Hr.
Qed.

(** Whatever its result, [Start] leaves the flag set. *)
Lemma Start_leaves_running h : IsRunning (Start h).1.1 = true.
Proof.
  unfold Start, startGuard, IsRunning.
  destruct (isRunning h) eqn:Hr; simpl; [exact Hr|].
  unfold resolvePort; simpl.
  destruct (String.eqb _ ""); simpl.
  - destruct (GetPortNames_ (port h)) as [p [err|[|first rest]]]; simpl; try reflexivity.
    unfold openPort; simpl. destruct (Open first p) as [p1 [err|]]; simpl; try reflexivity.
    unfold startStream; simpl. destruct (ReadEvents p1) as [p2 [err|]]; reflexivity.
  - unfold openPort; simpl.
    destruct (Open _ (port h)) as [p1 [err|]]; simpl; try reflexivity.
    unfold startStream; simpl. destruct (ReadEvents p1) as [p2 [err|]]; reflexivity.
Qed.

(** [Start] does not touch the handler's channels. *)
Lemma Start_keeps_channels h :
  doneClosed (Start h).1.1 = doneClosed h /\
  eventChanClosed (Start h).1.1 = eventChanClosed h.
Proof.
  unfold Start, startGuard.
  destruct (isRunning h); simpl; [auto|].
  unfold resolvePort; simpl.
  destruct (String.eqb _ ""); simpl.
  - destruct (GetPortNames_ (port h)) as [p [err|[|first rest]]]; simpl; auto.
    unfold openPort; simpl. destruct (Open first p) as [p1 [err|]]; simpl; auto.
    unfold startStream; simpl. destruct (ReadEvents p1) as [p2 [err|]]; auto.
  - unfold openPort; simpl.
    destruct (Open _ (port h)) as [p1 [err|]]; simpl; auto.
    unfold startStream; simpl. destruct (ReadEvents p1) as [p2 [err|]]; auto.
Qed.

End LifecycleFacts.

(** C7.  After a first [Close] has returned on a running handler, a further
    [Close] returns no error, makes no call (the port is not closed again,
    no channel is closed again) and leaves the handler as the first call
    left it; so does any number of further calls. *)
Theorem Close_idempotent {World P : Type} `{Midi.MIDIPort P}
  (h h1 : Midi.Handler World P) (cs : list Call) :
  Midi.isRunning h = true ->
  Midi.Close h = (h1, cs, Midi.Return None) ->
  Midi.Close h1 = (h1, [], Midi.Return None) /\
  forall n : nat, Nat.iter n (fun h' => (Midi.Close h').1.1) h1 = h1.
Proof.
  intros _ Hfirst.
  pose proof (Close_not_running h1 (Close_returns_not_running h h1 cs None Hfirst)) as Hnoop.
  split; [exact Hnoop|].
  induction n as [|n IH]; simpl; [reflexivity|].
  rewrite IH, Hnoop. reflexivity.
Qed.

Lemma Close_idempotent_witness :
  let started := (Midi.Start (Sample.linuxHandler Sample.onChannel3)).1.1 in
  let closed := (Midi.Close started).1.1 in
  Midi.isRunning started = true /\
  In PortClose (Midi.Close started).1.2 /\
  Midi.Close closed = (closed, [], Midi.Return None).
Proof.
  intros started closed. split; [reflexivity|]. split; [vm_compute; auto|].
  refine (proj1 (Close_idempotent started closed (Midi.Close started).1.2 _ _));
    vm_compute; reflexivity.
Defined.

(** ** Two calls of Start *)

Section StartFacts.

Import Midi.
Context {World P : Type} `{MIDIPort P}.
Implicit Types (h : Handler World P) (s : Sys (World := World) (P := P)) (pc : StartPC).

Lemma startGuard_running h : isRunning h = true -> startGuard h = (h, false).
Proof. intros Hr. unfold startGuard. rewrite Hr. reflexivity. Qed.

Lemma resolvePort_facts h h1 (c : list Call) (r : error + string) :
  resolvePort h = (h1, c, r) ->
  isRunning h1 = isRunning h /\ goCount c = 0%nat /\
  match r with inl err => err <> errAlreadyRunning | inr _ => True end.
Proof.
  unfold resolvePort. destruct (String.eqb _ "").
  - destruct (GetPortNames_ (port h)) as [p [err|[|first rest]]];
      intros Heq; inversion Heq; subst; repeat split; discriminate.
  - intros Heq; inversion Heq; subst. auto.
Qed.

Lemma openPort_facts h (name : string) h1 (c : list Call) (r : option error) :
  openPort h name = (h1, c, r) ->
  isRunning h1 = isRunning h /\ goCount c = 0%nat /\
  match r with Some err => err <> errAlreadyRunning | None => True end.
Proof.
  unfold openPort. destruct (Open name (port h)) as [p [err|]];
    intros Heq; inversion Heq; subst; repeat split; discriminate.
Qed.

Lemma startStream_facts h h1 (c : list Call) (r : option error) :
  startStream h = (h1, c, r) ->
  isRunning h1 = isRunning h /\
  match r with
  | Some err => err <> errAlreadyRunning /\ goCount c = 0%nat
  | None => goCount c = 1%nat
  end.
Proof.
  unfold startStream. destruct (ReadEvents (port h)) as [p [err|]];
    intros Heq; inversion Heq; subst; repeat split; discriminate.
Qed.

(** A caller past the guard stays past it, leaves the flag set, and starts
    the ingestion goroutine only on its way to [AtWait]. *)
Lemma startStep_owner (b : bool) pc h pc' h' (c : list Call) :
  owner pc -> startStep b pc h = (pc', h', c) ->
  owner pc' /\ isRunning h' = isRunning h /\
  spawned pc' = (spawned pc + goCount c)%nat.
Proof.
  unfold owner, rejected. intros [Hng Hnr] Hstep.
  destruct pc as [| |name| | |r]; simpl in Hstep.
  - contradiction.
  - destruct (resolvePort h) as [[h1 c1] [err|name]] eqn:Hres;
      destruct (resolvePort_facts _ _ _ _ Hres) as (Hrun & Hgo & Herr);
      inversion Hstep; subst; rewrite Hgo; repeat split; congruence.
  - destruct (openPort h name) as [[h1 c1] [err|]] eqn:Hop;
      destruct (openPort_facts _ _ _ _ _ Hop) as (Hrun & Hgo & Herr);
      inversion Hstep; subst; rewrite Hgo; repeat split; congruence.
  - destruct (startStream h) as [[h1 c1] [err|]] eqn:Hst;
      destruct (startStream_facts _ _ _ _ Hst) as (Hrun & Hfacts);
      inversion Hstep; subst.
    + destruct Hfacts as [Herr Hgo]. rewrite Hgo. repeat split; congruence.
    + rewrite Hfacts. repeat split; congruence.
  - destruct b; inversion Hstep; subst; repeat split; congruence.
  - inversion Hstep; subst. destruct r; repeat split; simpl; auto; congruence.
Qed.

Lemma callsOf_app (who : Caller) (cs1 cs2 : list (Caller * Call)) :
  callsOf who (cs1 ++ cs2) = callsOf who cs1 ++ callsOf who cs2.
Proof. unfold callsOf. rewrite List.filter_app, map_app. reflexivity. Qed.

Lemma callsOf_own (who : Caller) (c : list Call) :
  callsOf who (map (pair who) c) = c.
Proof.
  unfold callsOf. induction c as [|x c IH]; simpl; [reflexivity|].
  destruct who; simpl; rewrite IH; reflexivity.
Qed.

Lemma callsOf_other (who : Caller) (c : list Call) :
  callsOf (other who) (map (pair who) c) = [].
Proof.
  unfold callsOf. induction c as [|x c IH]; simpl; [reflexivity|].
  destruct who; simpl; exact IH.
Qed.

Lemma goCount_app (cs1 cs2 : list Call) :
  goCount (cs1 ++ cs2) = (goCount cs1 + goCount cs2)%nat.
Proof. unfold goCount. rewrite List.filter_app, length_app. reflexivity. Qed.

(** Every goroutine start is the first caller's or the second's. *)
Lemma goCount_callers (cs : list (Caller * Call)) :
  goCount (map snd cs) = (goCount (callsOf First cs) + goCount (callsOf Second cs))%nat.
Proof.
  unfold goCount, callsOf. induction cs as [|[who c] cs IH]; simpl; [reflexivity|].
  destruct who, c; simpl; rewrite IH; lia.
Qed.

(** The step of [who], read off the system. *)
Lemma sysStep_Run (who : Caller) s pc h (c : list Call) :
  startStep (ctxDone s) (pcOf who s) (handler s) = (pc, h, c) ->
  let s' := sysStep s (Run who) in
  pcOf who s' = pc /\ pcOf (other who) s' = pcOf (other who) s /\
  handler s' = h /\ calls s' = calls s ++ map (pair who) c.
Proof.
  intros Hstep. destruct who; simpl in *; rewrite Hstep; simpl; auto.
Qed.

(** One caller alone, with the context cancelled, is [Start]. *)
Lemma Start_as_steps h :
  complete (AtGuard, h, []) = (Finished (Start h).2, (Start h).1.1, (Start h).1.2).
Proof.
  unfold complete. simpl. unfold Start.
  destruct (startGuard h) as [h0 [|]]; simpl; [|reflexivity].
  destruct (resolvePort h0) as [[h1 c1] [err|name]]; simpl;
    [rewrite ?app_nil_r; reflexivity|].
  destruct (openPort h1 name) as [[h2 c2] [err|]]; simpl;
    [rewrite ?app_nil_r, <- ?app_assoc; reflexivity|].
  destruct (startStream h2) as [[h3 c3] [err|]]; simpl;
    rewrite ?app_nil_r, <- ?app_assoc; reflexivity.
Qed.

Lemma stepAlone_Finished (r : option error) h (c : list Call) :
  stepAlone (Finished r, h, c) = (Finished r, h, c).
Proof. simpl. rewrite app_nil_r. reflexivity. Qed.

(** A piece taken does not change where a call ends. *)
Lemma complete_stepAlone (x : StartPC * Handler World P * list Call)
  (r : option error) h (c : list Call) :
  complete x = (Finished r, h, c) -> complete (stepAlone x) = (Finished r, h, c).
Proof.
  intros Hx. unfold complete in *.
  change (Nat.iter 5 stepAlone (stepAlone x)) with (stepAlone (Nat.iter 5 stepAlone x)).
  rewrite Hx. apply stepAlone_Finished.
Qed.

(** Before the context is cancelled a piece is the same, or the caller
    waits. *)
Lemma startStep_ctx (b : bool) pc h :
  startStep b pc h = startStep true pc h \/ startStep b pc h = (pc, h, []).
Proof. destruct b; [left; reflexivity|]. destruct pc; simpl; auto. Qed.

Lemma complete_startStep (b : bool) pc h (cs : list Call) pc' h' (c : list Call)
  (r : option error) hf (cf : list Call) :
  startStep b pc h = (pc', h', c) ->
  complete (pc, h, cs) = (Finished r, hf, cf) ->
  complete (pc', h', cs ++ c) = (Finished r, hf, cf).
Proof.
  intros Hstep Hx. destruct (startStep_ctx b pc h) as [Heq | Heq]; rewrite Heq in Hstep.
  - apply complete_stepAlone in Hx. unfold stepAlone in Hx. rewrite Hstep in Hx. exact Hx.
  - inversion Hstep; subst. rewrite app_nil_r. exact Hx.
Qed.

Lemma owns_step_self (h0 : Handler World P) (who : Caller) s :
  owns h0 who s -> owns h0 who (sysStep s (Run who)).
Proof.
  intros (Hown & Hoth & Hrun & Hnone & Hgo & Hend).
  destruct (startStep (ctxDone s) (pcOf who s) (handler s)) as [[pc h] c] eqn:Hstep.
  destruct (sysStep_Run who s pc h c Hstep) as (Hpc & Hpco & Hh & Hc).
  destruct (startStep_owner _ _ _ _ _ _ Hown Hstep) as (Hown' & Hrun' & Hsp).
  pose proof (complete_startStep _ _ _ _ _ _ _ _ _ _ Hstep Hend) as Hend'.
  unfold owns. rewrite Hpc, Hpco, Hh, Hc, !callsOf_app, callsOf_own, callsOf_other.
  rewrite Hnone, goCount_app, Hgo, Hsp.
  split; [exact Hown'|]. split; [exact Hoth|]. split; [congruence|].
  split; [reflexivity|]. split; [reflexivity|exact Hend'].
Qed.

Lemma owns_step_other (h0 : Handler World P) (who : Caller) s :
  owns h0 who s -> owns h0 who (sysStep s (Run (other who))).
Proof.
  intros (Hown & Hoth & Hrun & Hnone & Hgo & Hend).
  assert (startStep (ctxDone s) (pcOf (other who) s) (handler s)
          = (Finished (Some errAlreadyRunning), handler s, [])) as Hstep.
  { destruct Hoth as [-> | ->]; simpl; [|reflexivity].
    rewrite (startGuard_running _ Hrun). reflexivity. }
  destruct (sysStep_Run (other who) s _ _ _ Hstep) as (Hpc & Hpco & Hh & Hc).
  assert (other (other who) = who) as Hoo by (destruct who; reflexivity).
  rewrite Hoo in Hpco.
  unfold owns. rewrite Hpc, Hpco, Hh, Hc. simpl. rewrite app_nil_r.
  split; [exact Hown|]. split; [right; reflexivity|]. auto.
Qed.

Lemma idle_step (who : Caller) s :
  pcFirst s = AtGuard -> pcSecond s = AtGuard ->
  isRunning (handler s) = false -> calls s = [] ->
  owns (handler s) who (sysStep s (Run who)).
Proof.
  intros H1 H2 Hrun Hc.
  assert (pcOf who s = AtGuard) as Hpw by (destruct who; assumption).
  assert (pcOf (other who) s = AtGuard) as Hpo by (destruct who; assumption).
  assert (startStep (ctxDone s) (pcOf who s) (handler s)
          = (AtResolve, setRunning (handler s) true,
             [Log LInfo "MIDI-Handler wird gestartet" []])) as Hstep.
  { rewrite Hpw. simpl. unfold startGuard. rewrite Hrun. reflexivity. }
  assert (complete (pcOf who s, handler s, [])
          = (Finished (Start (handler s)).2, (Start (handler s)).1.1,
             (Start (handler s)).1.2)) as Halone
    by (rewrite Hpw; apply Start_as_steps).
  pose proof (complete_startStep _ _ _ _ _ _ _ _ _ _ Hstep Halone) as Hend.
  destruct (sysStep_Run who s _ _ _ Hstep) as (Hpc & Hpco & Hh & Hcs).
  unfold owns. rewrite Hpc, Hpco, Hh, Hcs, Hc, Hpo, app_nil_l.
  rewrite callsOf_other, callsOf_own. unfold owner, rejected.
  split; [split; discriminate|]. auto.
Qed.

Lemma startInv_step (h0 : Handler World P) s (x : Sched) :
  startInv h0 s -> startInv h0 (sysStep s x).
Proof.
  intros Hinv. destruct x as [who|].
  - destruct Hinv as [(H1 & H2 & Hrun & Hc & <-) | [Hown | Hown]].
    + destruct who; [right; left | right; right]; apply idle_step; assumption.
    + right; left. destruct who;
        [apply owns_step_self | apply (owns_step_other h0 First)]; assumption.
    + right; right. destruct who;
        [apply (owns_step_other h0 Second) | apply owns_step_self]; assumption.
  - exact Hinv.
Qed.

Lemma startInv_run (h0 : Handler World P) (sched : list Sched) s :
  startInv h0 s -> startInv h0 (runSys s sched).
Proof.
  revert s. induction sched as [|x sched IH]; intros s Hinv; simpl; [exact Hinv|].
  apply IH, startInv_step, Hinv.
Qed.

Lemma startInv_init h : isRunning h = false -> startInv h (initSys h).
Proof. intros Hr. left. simpl. auto. Qed.

(** When both callers have finished, one of them owns the handler and has
    done what [Start] alone does; the other was rejected and made no call. *)
Lemma owns_finished (h0 : Handler World P) (who : Caller) s (r ro : option error) :
  owns h0 who s -> pcOf who s = Finished r -> pcOf (other who) s = Finished ro ->
  ro = Some errAlreadyRunning /\ r <> Some errAlreadyRunning /\
  callsOf (other who) (calls s) = [] /\
  (goCount (map snd (calls s)) <= 1)%nat /\
  (handler s, callsOf who (calls s), r) = Start h0.
Proof.
  intros ((Hng & Hnr) & Hoth & Hrun & Hnone & Hgo & Hend) Hr Hro.
  unfold rejected in *. rewrite Hr in Hnr, Hgo, Hend. rewrite Hro in Hoth.
  split; [destruct Hoth as [?|?]; congruence|].
  split; [congruence|]. split; [exact Hnone|]. split.
  - rewrite goCount_callers.
    assert (goCount (callsOf First (calls s)) + goCount (callsOf Second (calls s))
            = spawned (Finished r))%nat as ->.
    { destruct who, r; simpl in Hnone, Hgo; rewrite Hnone, Hgo; reflexivity. }
    destruct r; simpl; lia.
  - unfold complete in Hend. simpl in Hend. rewrite !app_nil_r in Hend.
    destruct (Start h0) as [[hf cf] rf]. simpl in Hend.
    inversion Hend; subst. reflexivity.
Qed.

End StartFacts.

(** C6.  [Start] on a running handler returns the already-running error,
    makes no call (the port is not opened, no ingestion goroutine is started)
    and leaves the handler as it is.  Of two calls of [Start] interleaved in
    any way on an idle handler, once both have returned exactly one has been
    rejected with that error, having made no call; the other has the result,
    the calls and the final handler of a single [Start]; at most one
    ingestion goroutine has been started, and the two calls have not both
    succeeded. *)
Theorem Start_twice {World P : Type} `{Midi.MIDIPort P} (h : Midi.Handler World P) :
  (Midi.isRunning h = true -> Midi.Start h = (h, [], Some Midi.errAlreadyRunning)) /\
  (Midi.isRunning h = false ->
   forall (sched : list Midi.Sched) (r1 r2 : option error),
     let s := Midi.runSys (Midi.initSys h) sched in
     Midi.pcFirst s = Midi.Finished r1 ->
     Midi.pcSecond s = Midi.Finished r2 ->
     ((r1 = Some Midi.errAlreadyRunning /\ r2 <> Some Midi.errAlreadyRunning /\
       Midi.callsOf Midi.First (Midi.calls s) = [] /\
       (Midi.handler s, Midi.callsOf Midi.Second (Midi.calls s), r2) = Midi.Start h)
      \/
      (r2 = Some Midi.errAlreadyRunning /\ r1 <> Some Midi.errAlreadyRunning /\
       Midi.callsOf Midi.Second (Midi.calls s) = [] /\
       (Midi.handler s, Midi.callsOf Midi.First (Midi.calls s), r1) = Midi.Start h)) /\
     (Midi.goCount (map snd (Midi.calls s)) <= 1)%nat /\
     ~ (r1 = None /\ r2 = None)).
Proof.
  split.
  - intros Hr. unfold Midi.Start. rewrite (startGuard_running h Hr). reflexivity.
  - intros Hidle sched r1 r2 s H1 H2.
    pose proof (startInv_run h sched _ (startInv_init h Hidle)) as Hinv. fold s in Hinv.
    destruct Hinv as [(Hg & _) | [Hown | Hown]].
    + congruence.
    + destruct (owns_finished h Midi.First s r1 r2 Hown H1 H2)
        as (Hrej & Hok & Hnone & Hgo & Hsame).
      split; [right; auto|]. split; [exact Hgo|]. intros [_ ->]. discriminate.
    + destruct (owns_finished h Midi.Second s r2 r1 Hown H2 H1)
        as (Hrej & Hok & Hnone & Hgo & Hsame).
      split; [left; auto|]. split; [exact Hgo|]. intros [-> _]. discriminate.
Qed.

Lemma Start_twice_witness :
  let h := Sample.linuxHandler Sample.onChannel3 in
  let sched := [Midi.Run Midi.First; Midi.Run Midi.Second; Midi.Run Midi.First;
                Midi.Run Midi.First; Midi.Run Midi.First; Midi.Cancel;
                Midi.Run Midi.First] in
  let s := Midi.runSys (Midi.initSys h) sched in
  Midi.pcFirst s = Midi.Finished None /\
  Midi.pcSecond s = Midi.Finished (Some Midi.errAlreadyRunning) /\
  Midi.callsOf Midi.Second (Midi.calls s) = [] /\
  (Midi.goCount (map snd (Midi.calls s)) <= 1)%nat.
Proof.
  intros h sched s.
  assert (Midi.pcFirst s = Midi.Finished None) as H1 by (vm_compute; reflexivity).
  assert (Midi.pcSecond s = Midi.Finished (Some Midi.errAlreadyRunning)) as H2
    by (vm_compute; reflexivity).
  destruct (proj2 (Start_twice h) eq_refl sched None (Some Midi.errAlreadyRunning) H1 H2)
    as ([(Hr1 & _) | (_ & _ & Hnone & _)] & Hgo & _).
  - discriminate Hr1.
  - auto.
Defined.

(** ** A call of Start that fails at the transport *)

Section StartFailureFacts.

Import Midi.
Context {World P : Type} `{MIDIPort P}.
Implicit Types (h : Handler World P).

(** A call that returns an error has started no ingestion goroutine. *)
Lemma Start_error_no_goroutine h (err : error) :
  (Start h).2 = Some err -> goCount (Start h).1.2 = 0%nat.
Proof.
  unfold Start.
  destruct (startGuard h) as [h0 [|]]; simpl; [|reflexivity].
  destruct (resolvePort h0) as [[h1 c1] [e|name]] eqn:Hres;
    destruct (resolvePort_facts _ _ _ _ Hres) as (_ & Hg1 & _); simpl.
  { intros _. change (goCount (Log LInfo "MIDI-Handler wird gestartet" [] :: c1))
      with (goCount c1). exact Hg1. }
  destruct (openPort h1 name) as [[h2 c2] [e|]] eqn:Hop;
    destruct (openPort_facts _ _ _ _ _ Hop) as (_ & Hg2 & _); simpl.
  { intros _. change (goCount (Log LInfo "MIDI-Handler wird gestartet" [] :: c1 ++ c2))
      with (goCount (c1 ++ c2)). rewrite goCount_app, Hg1, Hg2. reflexivity. }
  destruct (startStream h2) as [[h3 c3] [e|]] eqn:Hst;
    destruct (startStream_facts _ _ _ _ Hst) as (_ & Hg3); simpl; [|discriminate].
  intros _. destruct Hg3 as [_ Hg3].
  change (goCount (Log LInfo "MIDI-Handler wird gestartet" [] :: c1 ++ c2 ++ c3))
    with (goCount (c1 ++ c2 ++ c3)).
  rewrite !goCount_app, Hg1, Hg2, Hg3. reflexivity.
Qed.

(** A piece of [Start] past the guard that ends the call with an error:
    the flag is as it was, no goroutine is started, and the error is the
    one of the empty port list or wraps what the port returned. *)
Lemma startStep_transport_failure (ctx : bool) (pc : StartPC) h (err : error) :
  pc = AtResolve \/ (exists name, pc = AtOpen name) \/ pc = AtStream ->
  (startStep ctx pc h).1.1 = Finished (Some err) ->
  isRunning (startStep ctx pc h).1.2 = isRunning h /\
  goCount (startStep ctx pc h).2 = 0%nat /\
  ((pc = AtResolve /\ (GetPortNames_ (port h)).2 = inr [] /\
    err = Errorf "keine MIDI-Ports verfügbar")
   \/ exists cause,
        Unwrap err = Some cause /\
        ((pc = AtResolve /\ (GetPortNames_ (port h)).2 = inl cause)
         \/ (exists name, pc = AtOpen name /\ (Open name (port h)).2 = Some cause)
         \/ (pc = AtStream /\ (ReadEvents (port h)).2 = Some cause))).
Proof.
  intros [->|[[name ->]| ->]]; simpl.
  - unfold resolvePort. destruct (String.eqb _ ""); simpl; [|discriminate].
    destruct (GetPortNames_ (port h)) as [p [e|[|first rest]]]; simpl;
      intros Heq; inversion Heq; subst.
    + split; [reflexivity|]. split; [reflexivity|].
      right. exists e. split; [reflexivity|]. left. split; reflexivity.
    + split; [reflexivity|]. split; [reflexivity|].
      left. repeat split; reflexivity.
  - unfold openPort. destruct (Open name (port h)) as [p [e|]] eqn:Hopen; simpl;
      intros Heq; inversion Heq; subst.
    split; [reflexivity|]. split; [reflexivity|].
    right. exists e. split; [reflexivity|]. right; left. exists name.
    rewrite Hopen. split; reflexivity.
  - unfold startStream. destruct (ReadEvents (port h)) as [p [e|]]; simpl;
      intros Heq; inversion Heq; subst.
    split; [reflexivity|]. split; [reflexivity|].
    right. exists e. split; [reflexivity|]. right; right. split; reflexivity.
Qed.

(** The flag that [Start] leaves set is what lets the [Close] that follows
    release the port. *)
Lemma Close_after_Start h :
  doneClosed h = false -> eventChanClosed h = false ->
  (Close (Start h).1.1).2 = Return None /\
  List.filter isPortCall (Close (Start h).1.1).1.2 = [PortClose] /\
  IsRunning (Close (Start h).1.1).1.1 = false.
Proof.
  intros Hd He.
  pose proof (Start_leaves_running h) as Hrun.
  destruct (Start_keeps_channels h) as [Hd' He'].
  rewrite Hd in Hd'. rewrite He in He'.
  unfold IsRunning in *. unfold Close. rewrite Hrun. simpl.
  destruct (Close_ (port (Start h).1.1)) as [p [e|]]; simpl;
    rewrite Hd', He'; simpl; repeat split; reflexivity.
Qed.

End StartFailureFacts.




(** * Further properties *)

(** ** Defaults and validation *)

Section ConfigFacts.

Import Config.

Lemma enableMapping_idempotent (m : Mapping) :
  enableMapping (enableMapping m) = enableMapping m.
Proof. unfold enableMapping. destruct (Enabled m) eqn:E; simpl; rewrite ?E; reflexivity. Qed.

Lemma validateMIDIEvent_None (f : MIDIEvent) :
  validateMIDIEvent f = None <-> validEvent f.
Proof.
  unfold validateMIDIEvent, validEvent, inMIDIRange.
  destruct (String.eqb_spec (Type_ f) "note_on") as [Hty|H1];
    [|destruct (String.eqb_spec (Type_ f) "note_off") as [Hty|H2];
      [|destruct (String.eqb_spec (Type_ f) "control_change") as [Hty|H3];
        [|destruct (String.eqb_spec (Type_ f) "program_change") as [Hty|H4]]]];
    try rewrite Hty; simpl;
    repeat match goal with
           | |- context [?a <? ?b] => destruct (Z.ltb_spec a b); simpl
           | |- context [?a >? ?b] => destruct (Z.gtb_spec a b); simpl
           end;
    (split; [intros Hv; try discriminate Hv | intros Hv]);
    try (intuition (try discriminate; try congruence; lia)).
Qed.

Lemma missing_false (a : Action) (key : string) :
  missing a key = false <-> is_Some (Parameters a !! key).
Proof.
  unfold missing. destruct (Parameters a !! key) eqn:E; split; intros Hm;
    try discriminate; try reflexivity; [eauto | destruct Hm; discriminate].
Qed.

Lemma validateAction_None (a : Action) :
  validateAction a = None <-> validAction a.
Proof.
  unfold validateAction, validAction.
  rewrite <- !missing_false.
  destruct (String.eqb_spec (AType a) "volume") as [Hty|H1];
    [|destruct (String.eqb_spec (AType a) "app_start") as [Hty|H2];
      [|destruct (String.eqb_spec (AType a) "key_combination") as [Hty|H3];
        [|destruct (String.eqb_spec (AType a) "audio_source") as [Hty|H4]]]];
    try rewrite Hty;
    repeat match goal with
           | |- context [missing a ?k] => destruct (missing a k); simpl
           end;
    (split; [intros Hv; try discriminate Hv | intros Hv]);
    try (intuition (try discriminate; congruence)).
Qed.

Lemma validateMapping_None (m : Mapping) :
  validateMapping m = None <-> validMapping m.
Proof.
  unfold validateMapping, validMapping.
  rewrite <- validateMIDIEvent_None, <- validateAction_None.
  destruct (validateMIDIEvent (Event m)); [split; [discriminate | intros [? _]; discriminate]|].
  destruct (validateAction (Action_ m)); [split; [discriminate | intros [_ ?]; discriminate]|].
  split; auto.
Qed.

Lemma validateMappings_None (i : Z) (ms : list Mapping) :
  validateMappings i ms = None <-> Forall validMapping ms.
Proof.
  revert i. induction ms as [|m ms IH]; intros i; simpl.
  - split; [constructor | reflexivity].
  - rewrite Forall_cons, <- validateMapping_None, <- (IH (i + 1)).
    destruct (validateMapping m); [split; [discriminate | intros [? _]; discriminate]|].
    split; auto. intros [_ ?]; assumption.
Qed.

(** The loop stops at the first invalid mapping and names it. *)
Lemma validateMappings_Some (i : Z) (ms : list Mapping) (err : error) :
  validateMappings i ms = Some err ->
  exists (k : nat) (m : Mapping) (cause : error),
    ms !! k = Some m /\ Forall validMapping (take k ms) /\
    validateMapping m = Some cause /\
    err = Errorf_w ("ungültiges Mapping " +:+ fmt_d (i + Z.of_nat k) +:+ " ("
                    +:+ Name m +:+ "): ") cause.
Proof.
  revert i. induction ms as [|m ms IH]; intros i; simpl; [discriminate|].
  destruct (validateMapping m) as [cause|] eqn:Hm.
  - intros Heq. inversion Heq; subst. exists 0%nat, m, cause.
    rewrite Z.add_0_r. split; [reflexivity|]. split; [constructor|]. auto.
  - intros Hrest. destruct (IH (i + 1) Hrest) as (k & m' & cause & Hk & Hpre & Hbad & ->).
    exists (S k), m', cause. split; [exact Hk|]. split.
    + simpl. constructor; [apply validateMapping_None; exact Hm | exact Hpre].
    + split; [exact Hbad|].
      replace (i + Z.of_nat (S k)) with (i + 1 + Z.of_nat k) by lia. reflexivity.
Qed.

Lemma contains_append_l (u t s : string) : contains t s -> contains (u +:+ t) s.
Proof.
  intros (pre & post & ->). exists (u +:+ pre), post.
  rewrite !append_assoc. reflexivity.
Qed.

Lemma contains_prefix (s post : string) : contains (s +:+ post) s.
Proof. exists "", post. reflexivity. Qed.

Lemma validate_None_mappings (config : Config) :
  validate config = None -> Forall validMapping (Mappings config).
Proof.
  unfold validate. destruct (_ || _); [discriminate|]. apply validateMappings_None.
Qed.

End ConfigFacts.

(** X1.  [setDefaults] is idempotent: applied to its own result it changes
    nothing. *)
Theorem setDefaults_idempotent (config : Config.Config) :
  Config.setDefaults (Config.setDefaults config) = Config.setDefaults config.
Proof.
  unfold Config.setDefaults; simpl.
  rewrite map_map, (map_ext _ _ enableMapping_idempotent).
  repeat f_equal.
  - destruct (Z.eqb_spec (Config.Channel (Config.MIDI config)) 0) as [?|Hc]; [reflexivity|].
    destruct (Z.eqb_spec (Config.Channel (Config.MIDI config)) 0); [contradiction|reflexivity].
  - destruct (Z.eqb_spec (Config.Timeout (Config.MIDI config)) 0) as [?|Hc]; [reflexivity|].
    destruct (Z.eqb_spec (Config.Timeout (Config.MIDI config)) 0); [contradiction|reflexivity].
  - destruct (String.eqb_spec (Config.LogLevel (Config.General config)) "") as [?|Hc];
      [reflexivity|].
    destruct (String.eqb_spec (Config.LogLevel (Config.General config)) "");
      [contradiction|reflexivity].
  - destruct (Z.eqb_spec (Config.ActionDelay (Config.General config)) 0) as [?|Hc];
      [reflexivity|].
    destruct (Z.eqb_spec (Config.ActionDelay (Config.General config)) 0);
      [contradiction|reflexivity].
Qed.

(** X2.  A configuration returned by [Load] has its channel in -1..15 and
    not 0, and none of timeout, log level and action delay left at its zero
    value. *)
Theorem Load_result_defaults (env : Config.Env) (path : string) (config : Config.Config) :
  Config.Load env path = inr config ->
  -1 <= Config.Channel (Config.MIDI config) <= 15 /\
  Config.Channel (Config.MIDI config) <> 0 /\
  Config.Timeout (Config.MIDI config) <> 0 /\
  Config.LogLevel (Config.General config) <> "" /\
  Config.ActionDelay (Config.General config) <> 0.
Proof.
  intros HL. destruct (Load_inr env path config HL) as (a & f & d & _ & _ & _ & Hv & ->).
  split.
  - unfold Config.validate in Hv.
    destruct (Z.ltb_spec (Config.Channel (Config.MIDI (Config.setDefaults d))) (-1));
      [discriminate|].
    destruct (Z.gtb_spec (Config.Channel (Config.MIDI (Config.setDefaults d))) 15);
      [discriminate|]. lia.
  - split; [apply setDefaults_Channel_nonzero|]. simpl. repeat split.
    + destruct (Z.eqb_spec (Config.Timeout (Config.MIDI d)) 0); [discriminate|assumption].
    + destruct (String.eqb_spec (Config.LogLevel (Config.General d)) "");
        [discriminate|assumption].
    + destruct (Z.eqb_spec (Config.ActionDelay (Config.General d)) 0);
        [discriminate|assumption].
Qed.

Lemma Load_result_defaults_witness :
  exists config,
    Config.Load Sample.env "config.json" = inr config /\
    Config.Timeout (Config.MIDI config) = 30 /\
    Config.ActionDelay (Config.General config) <> 0.
Proof.
  exists (Config.setDefaults Sample.declared).
  assert (Config.Load Sample.env "config.json" = inr (Config.setDefaults Sample.declared))
    as HL by (vm_compute; reflexivity).
  split; [exact HL|]. split; [reflexivity|].
  apply (Load_result_defaults Sample.env "config.json" _ HL).
Defined.

(** X3.  [validate] accepts a configuration exactly when its channel is in
    -1..15 and every mapping has a filter of a known type with that type's
    fields in 0..127 and an action of one of the four types carrying its
    required parameter. *)
Theorem validate_None_iff (config : Config.Config) :
  Config.validate config = None <->
  -1 <= Config.Channel (Config.MIDI config) <= 15 /\
  Forall validMapping (Config.Mappings config).
Proof.
  unfold Config.validate. rewrite <- (validateMappings_None 0).
  destruct (Z.ltb_spec (Config.Channel (Config.MIDI config)) (-1)); simpl;
    [split; [discriminate | intros [? _]; lia]|].
  destruct (Z.gtb_spec (Config.Channel (Config.MIDI config)) 15); simpl;
    [split; [discriminate | intros [? _]; lia]|].
  split; [intros Hv; split; [lia | exact Hv] | intros [_ Hv]; exact Hv].
Qed.

(** X4.  When the channel is in range and [validate] fails, the error is
    about the first invalid mapping: every mapping before it is valid, the
    error wraps what [validateMapping] says of it, and the message carries
    its index and its name. *)
Theorem validate_reports_first_invalid (config : Config.Config) (err : error) :
  -1 <= Config.Channel (Config.MIDI config) <= 15 ->
  Config.validate config = Some err ->
  exists (k : nat) (m : Config.Mapping) (cause : error),
    Config.Mappings config !! k = Some m /\
    Forall validMapping (take k (Config.Mappings config)) /\
    Config.validateMapping m = Some cause /\
    Unwrap err = Some cause /\
    contains (Error err) (fmt_d (Z.of_nat k)) /\
    contains (Error err) (Config.Name m) /\
    contains (Error err) (Error cause).
Proof.
  intros Hch. unfold Config.validate.
  destruct (Z.ltb_spec (Config.Channel (Config.MIDI config)) (-1)); [lia|].
  destruct (Z.gtb_spec (Config.Channel (Config.MIDI config)) 15); [lia|]. simpl.
  intros Hv. destruct (validateMappings_Some 0 _ _ Hv) as (k & m & cause & Hk & Hpre & Hbad & ->).
  exists k, m, cause. rewrite Z.add_0_l.
  split; [exact Hk|]. split; [exact Hpre|]. split; [exact Hbad|]. split; [reflexivity|].
  simpl. split; [|split].
  - apply contains_append_r, contains_middle.
  - apply contains_append_r, contains_append_l, contains_append_l, contains_append_l,
      contains_prefix.
  - apply contains_suffix.
Qed.

Lemma validate_reports_first_invalid_witness :
  let bad := Sample.mapping "Bend" Sample.filterPitchBend true in
  let config :=
    {| Config.MIDI := Config.MIDI Sample.onChannel3;
       Config.Mappings := [Sample.mapping "Volume" Sample.filterCC7 true; bad];
       Config.General := Config.General Sample.onChannel3 |} in
  exists err,
    Config.validate config = Some err /\
    contains (Error err) "1" /\ contains (Error err) "Bend".
Proof.
  intros bad config.
  destruct (Config.validate config) as [err|] eqn:Hv; [|vm_compute in Hv; discriminate].
  exists err. split; [reflexivity|].
  destruct (validate_reports_first_invalid config err ltac:(simpl; lia) Hv)
    as (k & m & cause & Hk & Hpre & Hbad & _ & Hidx & Hname & _).
  destruct k as [|[|k]].
  - simpl in Hk. inversion Hk; subst. vm_compute in Hbad. discriminate.
  - simpl in Hk. inversion Hk; subst. auto.
  - simpl in Hk. discriminate.
Defined.

(** ** The registry: registration and dispatch *)

(** X5.  Registering an executor makes it the one found under its name,
    leaves every other name as it was, and replaces an executor registered
    earlier under the same name. *)
Theorem registerExecutor_lookup_overwrite {World : Type}
  (m : Actions.Manager World) (e1 e2 : Actions.Executor World) (ty : string) :
  Actions.GetExecutor (Actions.registerExecutor m e1) (Actions.GetName e1) = Some e1 /\
  (Actions.GetName e1 <> ty ->
   Actions.GetExecutor (Actions.registerExecutor m e1) ty = Actions.GetExecutor m ty) /\
  (Actions.GetName e1 = Actions.GetName e2 ->
   Actions.registerExecutor (Actions.registerExecutor m e1) e2
   = Actions.registerExecutor m e2).
Proof.
  unfold Actions.GetExecutor. split; [apply registerExecutor_lookup|].
  split; [apply registerExecutor_lookup_ne|].
  intros Hname. unfold Actions.registerExecutor; simpl.
  rewrite Hname, insert_insert_eq. reflexivity.
Qed.

Lemma registerExecutor_lookup_overwrite_witness :
  let silent : Actions.Executor Z :=
    {| Actions.GetName := "volume";
       Actions.Execute_ action v := (v, None);
       Actions.Validate := None |} in
  Actions.GetExecutor Sample.manager "app_start" = None /\
  Actions.registerExecutor Sample.manager silent
  = Actions.registerExecutor Actions.emptyManager silent.
Proof.
  intros silent. unfold Sample.manager. split.
  - rewrite (proj1 (proj2 (registerExecutor_lookup_overwrite Actions.emptyManager
                             Sample.volumeExecutor silent "app_start")))
      by discriminate.
    apply lookup_empty.
  - apply (proj2 (proj2 (registerExecutor_lookup_overwrite Actions.emptyManager
                           Sample.volumeExecutor silent "app_start"))).
    reflexivity.
Defined.

(** X6.  Once an executor is registered, [Execute] on an action of its type
    calls that executor exactly once, leaves the platform as the executor
    leaves it, and returns no error exactly when the executor returns none. *)
Theorem Execute_after_register {World : Type}
  (m : Actions.Manager World) (executor : Actions.Executor World)
  (action : Config.Action) (w : World) :
  Config.AType action = Actions.GetName executor ->
  let result := Actions.Execute (Actions.registerExecutor m executor) action w in
  result.1.1 = (Actions.Execute_ executor action w).1 /\
  List.filter isExecutorCall result.1.2
  = [ExecutorExecute (Actions.GetName executor) action] /\
  (result.2 = None <-> (Actions.Execute_ executor action w).2 = None).
Proof.
  intros Hty result. unfold result, Actions.Execute.
  rewrite Hty, registerExecutor_lookup.
  destruct (Actions.Execute_ executor action w) as [w' [err|]]; simpl.
  - split; [reflexivity|]. split; [reflexivity|]. split; discriminate.
  - split; [reflexivity|]. split; [reflexivity|]. split; reflexivity.
Qed.

Lemma Execute_after_register_witness :
  (Actions.Execute Sample.manager Sample.volumeUp 40).1.1 = 45 /\
  (Actions.Execute Sample.manager Sample.volumeUp 40).2 = None.
Proof.
  pose proof (Execute_after_register Actions.emptyManager Sample.volumeExecutor
                Sample.volumeUp 40 eq_refl) as (Hw & _ & Hr).
  split; [exact Hw | apply Hr; reflexivity].
Defined.

(** X7.  [GetAvailableTypes] lists exactly the action types that have an
    executor, each once. *)
Theorem GetAvailableTypes_registered {World : Type} (m : Actions.Manager World) :
  (forall ty : string,
     In ty (Actions.GetAvailableTypes m) <-> is_Some (Actions.GetExecutor m ty)) /\
  NoDup (Actions.GetAvailableTypes m) /\
  length (Actions.GetAvailableTypes m) = size (Actions.executors m).
Proof.
  unfold Actions.GetAvailableTypes, Actions.GetExecutor. split; [|split].
  - intros ty. rewrite <- list_elem_of_In, list_elem_of_fmap. split.
    + intros ([k ex] & -> & Hin). apply elem_of_map_to_list in Hin. eauto.
    + intros [ex Hex]. exists (ty, ex). split; [reflexivity|].
      apply elem_of_map_to_list. exact Hex.
  - apply NoDup_fst_map_to_list.
  - rewrite length_map. apply length_map_to_list.
Qed.

(** ** The dispatch loop: pacing, tests, ingestion *)

Section DispatchMoreFacts.

Import Midi.
Context {World P : Type}.
Implicit Types (h : Handler World P) (event : MIDIEvent) (ms : list Config.Mapping).

Lemma sleeps_app (cs1 cs2 : list Call) : sleeps (cs1 ++ cs2) = sleeps cs1 ++ sleeps cs2.
Proof.
  induction cs1 as [|c cs1 IH]; simpl; [reflexivity|].
  destruct c; simpl; rewrite ?IH; reflexivity.
Qed.

Lemma handleMappings_sleeps h event ms :
  let delay := Config.ActionDelay (Config.General (config h)) in
  sleeps (handleMappings h event ms) =
  if delay >? 0
  then map (fun _ => wrap64 (delay * Millisecond)) (List.filter (fires event) ms)
  else [].
Proof.
  intros delay. induction ms as [|m ms IH]; simpl.
  - destruct (delay >? 0); reflexivity.
  - rewrite sleeps_app, IH. unfold fires at 2.
    destruct (Config.Enabled m); simpl; [|reflexivity].
    destruct (matchesMapping event (Config.Event m)); simpl; [|reflexivity].
    fold delay. destruct (delay >? 0); reflexivity.
Qed.

(** Among the goroutine starts and the sleeps of the loop, every start is
    followed by its sleep before the next start. *)
Lemma handleMappings_launches h event ms :
  let delay := Config.ActionDelay (Config.General (config h)) in
  List.filter isGoExecuteOrSleep (handleMappings h event ms) =
  flat_map (fun m => GoExecute m ::
                     (if delay >? 0 then [Sleep (wrap64 (delay * Millisecond))] else []))
    (List.filter (fires event) ms).
Proof.
  intros delay. induction ms as [|m ms IH]; simpl; [reflexivity|].
  rewrite List.filter_app, IH. unfold fires at 2.
  destruct (Config.Enabled m); simpl; [|reflexivity].
  destruct (matchesMapping event (Config.Event m)); simpl; [|reflexivity].
  fold delay. destruct (delay >? 0); reflexivity.
Qed.

Lemma flat_map_singleton {A B : Type} (f : A -> B) (l : list A) :
  flat_map (fun x => [f x]) l = map f l.
Proof. induction l as [|x l IH]; simpl; [reflexivity|]. rewrite IH. reflexivity. Qed.

Lemma wrap64_small (z : Z) : - 2 ^ 63 <= z < 2 ^ 63 -> wrap64 z = z.
Proof. intros Hz. unfold wrap64. rewrite Z.mod_small by lia. lia. Qed.

Lemma processEvents_received h (received : list MIDIEvent) (rest : list Select) :
  processEvents h (map Recv received ++ rest) =
  (concat (map (handleEvent h) received) ++ (processEvents h rest).1,
   (processEvents h rest).2).
Proof.
  induction received as [|e received IH]; simpl.
  - destruct (processEvents h rest); reflexivity.
  - rewrite IH. simpl. rewrite app_assoc. reflexivity.
Qed.

Lemma handleEvent_fanout_eq h event :
  Config.Channel (Config.MIDI (config h)) = -1 \/
  Channel event = Config.Channel (Config.MIDI (config h)) ->
  executes (handleEvent h event) = List.filter (fires event) (Config.Mappings (config h)).
Proof.
  intros Hacc. destruct (handleEvent_accepted h event Hacc) as [fields ->]. simpl.
  apply handleMappings_executes.
Qed.

End DispatchMoreFacts.

(** X8.  For an accepted event, the goroutine starts and the sleeps of
    [handleEvent] are, in order, those of the mappings that fire: for each
    of them the start of its goroutine, followed, when the action delay is
    positive, by one sleep before the next goroutine is started, so that a
    sleep never comes before the goroutine it paces.  With a delay that is
    not positive nothing is slept; up to 9223372036854 ms the sleep lasts
    the delay, in nanoseconds. *)
Theorem handleEvent_pacing {World P : Type}
  (h : Midi.Handler World P) (event : Midi.MIDIEvent) :
  Config.Channel (Config.MIDI (Midi.config h)) = -1 \/
  Midi.Channel event = Config.Channel (Config.MIDI (Midi.config h)) ->
  let delay := Config.ActionDelay (Config.General (Midi.config h)) in
  let calls := Midi.handleEvent h event in
  let fired := List.filter (fires event) (Config.Mappings (Midi.config h)) in
  List.filter isGoExecuteOrSleep calls
  = flat_map (fun m => GoExecute m ::
                       (if delay >? 0
                        then [Sleep (Midi.wrap64 (delay * Midi.Millisecond))] else []))
      fired /\
  (delay <= 0 ->
   sleeps calls = [] /\ List.filter isGoExecuteOrSleep calls = map GoExecute fired) /\
  (0 < delay ->
   sleeps calls = map (fun _ => Midi.wrap64 (delay * Midi.Millisecond)) (executes calls)) /\
  (0 < delay <= 9223372036854 ->
   sleeps calls = map (fun _ => delay * 1000000) (executes calls) /\
   List.filter isGoExecuteOrSleep calls
   = flat_map (fun m => [GoExecute m; Sleep (delay * 1000000)]) fired).
Proof.
  intros Hacc delay calls fired.
  assert (List.filter isGoExecuteOrSleep calls
          = flat_map (fun m => GoExecute m ::
                               (if delay >? 0
                                then [Sleep (Midi.wrap64 (delay * Midi.Millisecond))]
                                else []))
              fired) as Hl.
  { unfold calls. destruct (handleEvent_accepted h event Hacc) as [fields ->]. simpl.
    apply handleMappings_launches. }
  assert (sleeps calls =
          if delay >? 0
          then map (fun _ => Midi.wrap64 (delay * Midi.Millisecond)) (executes calls)
          else []) as Hs.
  { unfold calls. destruct (handleEvent_accepted h event Hacc) as [fields ->]. simpl.
    rewrite handleMappings_executes. apply handleMappings_sleeps. }
  split; [exact Hl|]. rewrite Hl, Hs.
  destruct (Z.gtb_spec delay 0) as [Hpos|Hneg].
  - split; [intros; lia|]. split; [reflexivity|].
    intros Hd. rewrite wrap64_small by (unfold Midi.Millisecond; lia).
    split; reflexivity.
  - split; [|split; intros; lia]. intros _. split; [reflexivity|].
    apply flat_map_singleton.
Qed.

Lemma handleEvent_pacing_witness :
  let h := Sample.linuxHandler Sample.onChannel3 in
  let calls := Midi.handleEvent h (Sample.cc 3 7 90) in
  sleeps calls = [100000000; 100000000] /\
  List.filter isGoExecuteOrSleep calls
  = [GoExecute (Sample.mapping "Volume" Sample.filterCC7 true); Sleep 100000000;
     GoExecute (Sample.mapping "Volume again" Sample.filterCC7 true); Sleep 100000000].
Proof.
  intros h calls.
  destruct (proj2 (proj2 (proj2 (handleEvent_pacing h (Sample.cc 3 7 90)
                                   (or_intror eq_refl))))
              ltac:(simpl; lia)) as [Hs Hl].
  fold calls in Hs, Hl.
  split; [rewrite Hs | rewrite Hl]; reflexivity.
Defined.

(** X9.  For an accepted event, [handleEvent] tests the filter of every
    enabled mapping once, in configured order, whether or not an earlier
    mapping matched, and tests no filter of a mapping that is not enabled. *)
Theorem handleEvent_tests_enabled {World P : Type}
  (h : Midi.Handler World P) (event : Midi.MIDIEvent) :
  Config.Channel (Config.MIDI (Midi.config h)) = -1 \/
  Midi.Channel event = Config.Channel (Config.MIDI (Midi.config h)) ->
  matchTests (Midi.handleEvent h event)
  = map Config.Event (List.filter Config.Enabled (Config.Mappings (Midi.config h))).
Proof.
  intros Hacc. destruct (handleEvent_accepted h event Hacc) as [fields ->]. simpl.
  apply handleMappings_matchTests.
Qed.

Lemma handleEvent_tests_enabled_witness :
  matchTests (Midi.handleEvent (Sample.linuxHandler Sample.onChannel3) (Sample.cc 3 7 90))
  = [Sample.filterCC7; Sample.filterCC7; Sample.filterNote60].
Proof.
  rewrite (handleEvent_tests_enabled (Sample.linuxHandler Sample.onChannel3)
             (Sample.cc 3 7 90) (or_intror eq_refl)).
  reflexivity.
Defined.

(** X10.  [processEvents] handles the events it receives one after the other
    in arrival order; at the first closed stream or cancellation it logs one
    line and returns, and whatever the channels hold after that is never
    handled.  While only events arrive it has not returned. *)
Theorem processEvents_in_order {World P : Type}
  (h : Midi.Handler World P) (received : list Midi.MIDIEvent)
  (stop : Midi.Select) (rest : list Midi.Select) :
  (forall event, stop <> Midi.Recv event) ->
  (exists msg,
     Midi.processEvents h (map Midi.Recv received ++ stop :: rest)
     = (concat (map (Midi.handleEvent h) received) ++ [Log LInfo msg []], true)) /\
  Midi.processEvents h (map Midi.Recv received)
  = (concat (map (Midi.handleEvent h) received), false).
Proof.
  intros Hstop. split.
  - rewrite processEvents_received.
    destruct stop as [event| | |]; [destruct (Hstop event eq_refl)| | |];
      simpl; eexists; reflexivity.
  - rewrite <- (app_nil_r (map Midi.Recv received)), processEvents_received. simpl.
    rewrite !app_nil_r. reflexivity.
Qed.

Lemma processEvents_in_order_witness :
  let h := Sample.linuxHandler Sample.onChannel3 in
  exists msg,
    Midi.processEvents h [Midi.Recv (Sample.cc 2 7 90); Midi.HDone; Midi.Recv (Sample.cc 3 7 90)]
    = ([Log LInfo msg []], true).
Proof.
  intros h.
  destruct (proj1 (processEvents_in_order h [Sample.cc 2 7 90] Midi.HDone
                     [Midi.Recv (Sample.cc 3 7 90)] ltac:(discriminate)))
    as [msg Hmsg].
  exists msg. exact Hmsg.
Defined.

(** X11.  If an event matches a filter, so does every event that differs
    from it only by a velocity and a value at least as high (and by its
    channel and timestamp). *)
Theorem matchesMapping_monotone (E E' : Midi.MIDIEvent) (F : Config.MIDIEvent) :
  Midi.Type_ E' = Midi.Type_ E -> Midi.Note E' = Midi.Note E ->
  Midi.Controller E' = Midi.Controller E -> Midi.Program_ E' = Midi.Program_ E ->
  Midi.Velocity E <= Midi.Velocity E' -> Midi.Value E <= Midi.Value E' ->
  Midi.matchesMapping E F = true -> Midi.matchesMapping E' F = true.
Proof.
  intros HT HN HC HP HV HX. unfold Midi.matchesMapping. rewrite HT, HN, HC, HP.
  destruct (negb _); [discriminate|].
  destruct (_ || _).
  - destruct (negb _); [discriminate|].
    destruct (Z.gtb_spec (Config.Velocity F) 0); simpl; [|reflexivity].
    destruct (Z.ltb_spec (Midi.Velocity E) (Config.Velocity F)); [discriminate|].
    destruct (Z.ltb_spec (Midi.Velocity E') (Config.Velocity F)); [lia|reflexivity].
  - destruct (String.eqb _ "control_change").
    + destruct (negb _); [discriminate|].
      destruct (Z.gtb_spec (Config.Value F) 0); simpl; [|reflexivity].
      destruct (Z.ltb_spec (Midi.Value E) (Config.Value F)); [discriminate|].
      destruct (Z.ltb_spec (Midi.Value E') (Config.Value F)); [lia|reflexivity].
    + auto.
Qed.

Lemma matchesMapping_monotone_witness :
  Midi.matchesMapping (Sample.cc 9 7 127) Sample.filterCC7 = true.
Proof.
  apply (matchesMapping_monotone (Sample.cc 3 7 90) (Sample.cc 9 7 127) Sample.filterCC7);
    try reflexivity; simpl; lia.
Defined.

(** X12.  In a handler that runs on a configuration returned by [Load], the
    enabled flag filters nothing: for an accepted event a goroutine is
    started for every mapping whose filter matches, and every filter is of a
    known type. *)
Theorem loaded_config_dispatch {World P : Type}
  (env : Config.Env) (path : string) (h : Midi.Handler World P) (event : Midi.MIDIEvent) :
  Config.Load env path = inr (Midi.config h) ->
  Config.Channel (Config.MIDI (Midi.config h)) = -1 \/
  Midi.Channel event = Config.Channel (Config.MIDI (Midi.config h)) ->
  executes (Midi.handleEvent h event)
  = List.filter (fun m => Midi.matchesMapping event (Config.Event m))
      (Config.Mappings (Midi.config h)) /\
  Forall (fun m => knownType (Config.Type_ (Config.Event m)) = true)
    (Config.Mappings (Midi.config h)).
Proof.
  intros HL Hacc.
  destruct (Load_inr env path _ HL) as (a & f & d & _ & _ & _ & Hv & Hcfg).
  split.
  - rewrite (handleEvent_fanout_eq h event Hacc).
    pose proof (setDefaults_Enabled d) as Hen. rewrite <- Hcfg in Hen.
    induction (Config.Mappings (Midi.config h)) as [|m ms IH]; simpl; [reflexivity|].
    inversion Hen as [|m' ms' Hm Hms]; subst.
    unfold fires at 1. rewrite Hm. simpl.
    destruct (Midi.matchesMapping event (Config.Event m)); rewrite (IH Hms); reflexivity.
  - rewrite <- Hcfg in Hv. apply validate_None_mappings in Hv.
    eapply Forall_impl; [exact Hv|]. intros m [Hev _].
    unfold validEvent in Hev. unfold knownType.
    destruct Hev as [[[-> | ->] _] | [[-> _] | [-> _]]]; reflexivity.
Qed.

Lemma loaded_config_dispatch_witness :
  map Config.Name
    (executes (Midi.handleEvent
                 (Sample.linuxHandler (Config.setDefaults Sample.declared))
                 (Sample.cc 3 7 90)))
  = ["Volume"; "Off"; "Volume again"].
Proof.
  rewrite (proj1 (loaded_config_dispatch Sample.env "config.json"
                    (Sample.linuxHandler (Config.setDefaults Sample.declared))
                    (Sample.cc 3 7 90) ltac:(vm_compute; reflexivity)
                    (or_introl eq_refl))).
  reflexivity.
Defined.

(** ** The lifecycle: what Start and Close do to the transport *)

Section LifecycleMoreFacts.

Import Midi.
Context {World P : Type} `{MIDIPort P}.
Implicit Types (h : Handler World P).

Lemma Close_returns_closes_done h h1 (cs : list Call) (r : option error) :
  isRunning h = true -> Close h = (h1, cs, Return r) -> doneClosed h1 = true.
Proof.
  intros Hr. unfold Close. rewrite Hr. simpl.
  destruct (Close_ (port h)) as [p e].
  destruct (doneClosed h); [discriminate|].
  destruct (eventChanClosed h); [discriminate|].
  intros Heq. inversion Heq; subst. reflexivity.
Qed.

Lemma Close_running_done_closed h :
  isRunning h = true -> doneClosed h = true ->
  (Close h).2 = Panic "close of closed channel" /\
  isRunning (Close h).1.1 = true /\
  List.filter isPortCall (Close h).1.2 = [PortClose].
Proof.
  intros Hr Hd. unfold Close. rewrite Hr. simpl.
  destruct (Close_ (port h)) as [p [e|]]; simpl; rewrite Hd; simpl; auto.
Qed.

End LifecycleMoreFacts.

(** X13.  [Close] never returns an error.  On a running handler whose
    channels are open it closes the port once, even when the port reports an
    error, then closes [done] and [eventChan], and leaves the handler not
    running. *)
Theorem Close_releases_once {World P : Type} `{Midi.MIDIPort P}
  (h : Midi.Handler World P) :
  (forall e, (Midi.Close h).2 <> Midi.Return (Some e)) /\
  (Midi.isRunning h = true -> Midi.doneClosed h = false ->
   Midi.eventChanClosed h = false ->
   (Midi.Close h).2 = Midi.Return None /\
   withoutLogs (Midi.Close h).1.2 = [PortClose; CloseChan done; CloseChan eventChan] /\
   Midi.port (Midi.Close h).1.1 = (Midi.Close_ (Midi.port h)).1 /\
   Midi.IsRunning (Midi.Close h).1.1 = false /\
   Midi.doneClosed (Midi.Close h).1.1 = true /\
   Midi.eventChanClosed (Midi.Close h).1.1 = true).
Proof.
  unfold Midi.Close, Midi.IsRunning. split.
  - intros e. destruct (Midi.isRunning h); simpl; [|discriminate].
    destruct (Midi.Close_ (Midi.port h)) as [p r]. simpl.
    destruct (Midi.doneClosed h); [discriminate|].
    destruct (Midi.eventChanClosed h); discriminate.
  - intros -> Hd He. simpl.
    destruct (Midi.Close_ (Midi.port h)) as [p [e|]]; simpl; rewrite Hd, He; simpl;
      repeat split; reflexivity.
Qed.

Lemma Close_releases_once_witness :
  let started := (Midi.Start (Sample.linuxHandler Sample.onChannel3)).1.1 in
  (Midi.Close started).2 = Midi.Return None /\
  isOpen (Midi.port (Midi.Close started).1.1) = false.
Proof.
  intros started.
  destruct (proj2 (Close_releases_once started) eq_refl eq_refl eq_refl)
    as (Hout & _ & Hport & _).
  split; [exact Hout|]. rewrite Hport. reflexivity.
Defined.

(** X14.  A handler that has been closed cannot be started and closed again:
    after a [Close] that returned and another [Start], whatever that [Start]
    returns, the next [Close] closes the port and then panics on the [done]
    channel, which is already closed, leaving the handler running. *)
Theorem Close_after_restart_panics {World P : Type} `{Midi.MIDIPort P}
  (h h1 : Midi.Handler World P) (cs : list Call) :
  Midi.isRunning h = true ->
  Midi.Close h = (h1, cs, Midi.Return None) ->
  let restarted := (Midi.Start h1).1.1 in
  (Midi.Close restarted).2 = Midi.Panic "close of closed channel" /\
  Midi.IsRunning (Midi.Close restarted).1.1 = true /\
  List.filter isPortCall (Midi.Close restarted).1.2 = [PortClose].
Proof.
  intros Hr Hclose restarted.
  apply Close_running_done_closed.
  - apply Start_leaves_running.
  - unfold restarted. rewrite (proj1 (Start_keeps_channels h1)).
    exact (Close_returns_closes_done h h1 cs None Hr Hclose).
Qed.

Lemma Close_after_restart_panics_witness :
  let started := (Midi.Start (Sample.linuxHandler Sample.onChannel3)).1.1 in
  let closed := (Midi.Close started).1.1 in
  (Midi.Start closed).2 = None /\
  (Midi.Close (Midi.Start closed).1.1).2 = Midi.Panic "close of closed channel".
Proof.
  intros started closed. split; [vm_compute; reflexivity|].
  refine (proj1 (Close_after_restart_panics started closed (Midi.Close started).1.2 _ _));
    vm_compute; reflexivity.
Defined.

(** X15.  [Start] starts the ingestion goroutine exactly when it returns no
    error, and then exactly once; when it returns an error it has started
    none. *)
Theorem Start_spawns_iff_success {World P : Type} `{Midi.MIDIPort P}
  (h : Midi.Handler World P) :
  ((Midi.Start h).2 = None <-> Midi.goCount (Midi.Start h).1.2 = 1%nat) /\
  ((Midi.Start h).2 <> None -> Midi.goCount (Midi.Start h).1.2 = 0%nat).
Proof.
  unfold Midi.Start.
  destruct (Midi.startGuard h) as [h0 [|]]; simpl;
    [|split; [split; discriminate | reflexivity]].
  destruct (Midi.resolvePort h0) as [[h1 c1] [err|name]] eqn:Hres;
    destruct (resolvePort_facts _ _ _ _ Hres) as (_ & Hg1 & _); simpl.
  { change (Midi.goCount (Log LInfo "MIDI-Handler wird gestartet" [] :: c1))
      with (Midi.goCount c1). rewrite Hg1. split; [split; discriminate | reflexivity]. }
  destruct (Midi.openPort h1 name) as [[h2 c2] [err|]] eqn:Hop;
    destruct (openPort_facts _ _ _ _ _ Hop) as (_ & Hg2 & _); simpl.
  { change (Midi.goCount (Log LInfo "MIDI-Handler wird gestartet" [] :: c1 ++ c2))
      with (Midi.goCount (c1 ++ c2)).
    rewrite goCount_app, Hg1, Hg2. split; [split; discriminate | reflexivity]. }
  destruct (Midi.startStream h2) as [[h3 c3] [err|]] eqn:Hst;
    destruct (startStream_facts _ _ _ _ Hst) as (_ & Hg3); simpl.
  - destruct Hg3 as [_ Hg3].
    change (Midi.goCount (Log LInfo "MIDI-Handler wird gestartet" [] :: c1 ++ c2 ++ c3))
      with (Midi.goCount (c1 ++ c2 ++ c3)).
    rewrite !goCount_app, Hg1, Hg2, Hg3. split; [split; discriminate | reflexivity].
  - change (Midi.goCount (Log LInfo "MIDI-Handler wird gestartet" [] :: c1 ++ c2 ++ c3
                          ++ [Log LInfo "MIDI-Handler wird beendet" []]))
      with (Midi.goCount (c1 ++ c2 ++ c3 ++ [Log LInfo "MIDI-Handler wird beendet" []])).
    rewrite !goCount_app, Hg1, Hg2, Hg3.
    split; [split; reflexivity | intros Hne; destruct (Hne eq_refl)].
Qed.

(** X16.  On an idle handler [Start] opens the configured port without
    listing the ports when a name is configured; with no name configured it
    lists the ports and opens the first, or fails, opening nothing, when the
    list is empty. *)
Theorem Start_port_selection {World P : Type} `{Midi.MIDIPort P}
  (h : Midi.Handler World P) :
  Midi.isRunning h = false ->
  let name := Config.InputPort (Config.MIDI (Midi.config h)) in
  let ports := List.filter isPortCall (Midi.Start h).1.2 in
  (name <> "" -> exists rest, ports = PortOpen name :: rest /\ ~ In PortGetPortNames rest) /\
  (name = "" ->
   forall first others,
     (Midi.GetPortNames_ (Midi.port h)).2 = inr (first :: others) ->
     exists rest, ports = PortGetPortNames :: PortOpen first :: rest) /\
  (name = "" ->
   (Midi.GetPortNames_ (Midi.port h)).2 = inr [] ->
   ports = [PortGetPortNames] /\
   (Midi.Start h).2 = Some (Errorf "keine MIDI-Ports verfügbar")).
Proof.
  intros Hidle name ports. unfold ports, Midi.Start, Midi.startGuard. rewrite Hidle.
  unfold Midi.resolvePort. simpl. fold name.
  destruct (String.eqb_spec name "") as [Hname|Hname].
  - split; [intros Hne; contradiction|].
    destruct (Midi.GetPortNames_ (Midi.port h)) as [p [err|[|first rest]]]; simpl.
    + split; [intros _ ? ? Hq; discriminate | intros _ Hq; discriminate].
    + split; [intros _ ? ? Hq; discriminate | auto].
    + split; [|intros _ Hq; discriminate].
      intros _ first' others Hq. inversion Hq; subst.
      unfold Midi.openPort. simpl. destruct (Midi.Open first' p) as [p1 [err|]]; simpl;
        [eexists; reflexivity|].
      unfold Midi.startStream. simpl.
      destruct (Midi.ReadEvents p1) as [p2 [err|]]; simpl; eexists; reflexivity.
  - split; [|split; intros Hq; contradiction].
    intros _. unfold Midi.openPort. simpl.
    destruct (Midi.Open name (Midi.port h)) as [p1 [err|]]; simpl.
    + exists []. split; [reflexivity | intros []].
    + unfold Midi.startStream. simpl.
      destruct (Midi.ReadEvents p1) as [p2 [err|]]; simpl;
        (eexists; split; [reflexivity|]); simpl; intuition discriminate.
Qed.

Lemma Start_port_selection_witness :
  exists rest,
    List.filter isPortCall (Midi.Start (Sample.linuxHandler Sample.onChannel3)).1.2
    = PortGetPortNames :: PortOpen "ALSA MIDI Port 0" :: rest.
Proof.
  apply (proj1 (proj2 (Start_port_selection (Sample.linuxHandler Sample.onChannel3)
                         eq_refl)) eq_refl "ALSA MIDI Port 0"
           ["USB MIDI Interface"; "Virtual MIDI Port"; "FLUID Synth"; "Timidity"]).
  reflexivity.
Defined.



(** X18.  The Linux port refuses to read events unless it is open, and
    [Start] opens it first: on this port [Start] on a fresh handler always
    succeeds and leaves the port open under the configured name, or under
    the first listed name when none is configured; the [Close] that follows
    returns and leaves the port closed. *)
Theorem linux_Start_Close {World : Type}
  (cfg : Config.Config) (mgr : Actions.Manager World) :
  let h := Midi.newHandler cfg mgr newLinuxMIDIPort in
  let name := Config.InputPort (Config.MIDI cfg) in
  let started := (Midi.Start h).1.1 in
  (forall p : LinuxPort,
     (Midi.ReadEvents p).2 = None <-> isOpen p = true) /\
  (Midi.Start h).2 = None /\
  Midi.port started
  = {| portName := if String.eqb name "" then "ALSA MIDI Port 0" else name;
       isOpen := true |} /\
  (Midi.Close started).2 = Midi.Return None /\
  isOpen (Midi.port (Midi.Close started).1.1) = false /\
  Midi.IsRunning (Midi.Close started).1.1 = false.
Proof.
  intros h name started. split.
  - intros p. simpl. destruct (isOpen p); simpl; split; intros Hq;
      try reflexivity; discriminate Hq.
  - unfold started, h, Midi.Start, Midi.resolvePort. simpl.
    fold name. destruct (String.eqb name ""); simpl; repeat split; reflexivity.
Qed.

(** ** The volume executor *)

Section VolumeFacts.

Import Config VolumeExecutor.
Context {C : Type} `{VolumeController C}.
Variable float64ToInt : string -> Z.
Variable fmtValue : ParamValue -> string.

Lemma existsb_validDirections (d : string) :
  existsb (String.eqb d) validDirections = true <-> In d validDirections.
Proof.
  rewrite existsb_exists. split.
  - intros (x & Hin & Heq). apply String.eqb_eq in Heq. subst. exact Hin.
  - intros Hin. exists d. split; [exact Hin | apply String.eqb_refl].
Qed.

(** What [Validate] has checked when it accepts. *)
Lemma Validate_None (action : Action) :
  Validate float64ToInt fmtValue action = None ->
  exists d,
    Parameters action !! "direction" = Some (PVString d) /\
    In d validDirections /\
    (d = "set" -> is_Some (Parameters action !! "volume")) /\
    1 <= percentOf float64ToInt action <= 100.
Proof.
  unfold Validate, percentOf.
  destruct (Parameters action !! "direction") as [[| | |d| |]|]; try discriminate.
  destruct (existsb (String.eqb d) validDirections) eqn:Hd; simpl; [|discriminate].
  apply existsb_validDirections in Hd.
  destruct (String.eqb_spec d "set") as [Hset|Hset]; simpl.
  - destruct (missing action "volume") eqn:Hm; [discriminate|].
    apply missing_false in Hm. intros Hv. exists d. split; [reflexivity|].
    split; [exact Hd|]. split; [auto|]. revert Hv.
    destruct (Parameters action !! "percent") as [[| |lit|s| |]|]; try discriminate;
      try (intros _; lia).
    + destruct (Z.leb_spec (float64ToInt lit) 0), (Z.gtb_spec (float64ToInt lit) 100);
        simpl; try discriminate. lia.
    + destruct (Atoi s) as [n|]; [|discriminate].
      destruct (Z.leb_spec n 0), (Z.gtb_spec n 100); simpl; try discriminate. lia.
  - intros Hv. exists d. split; [reflexivity|].
    split; [exact Hd|]. split; [intros; contradiction|]. revert Hv.
    destruct (Parameters action !! "percent") as [[| |lit|s| |]|]; try discriminate;
      try (intros _; lia).
    + destruct (Z.leb_spec (float64ToInt lit) 0), (Z.gtb_spec (float64ToInt lit) 100);
        simpl; try discriminate. lia.
    + destruct (Atoi s) as [n|]; [|discriminate].
      destruct (Z.leb_spec n 0), (Z.gtb_spec n 100); simpl; try discriminate. lia.
Qed.

(** [Execute] on a direction other than set, once the direction is a valid
    one. *)
Lemma Execute_direction (action : Action) (d : string) (c : C) :
  Parameters action !! "direction" = Some (PVString d) ->
  In d validDirections -> d <> "set" ->
  let p := percentOf float64ToInt action in
  let call :=
    if String.eqb d "up" || String.eqb d "increase" then CallIncreaseVolume p
    else if String.eqb d "down" || String.eqb d "decrease" then CallDecreaseVolume p
    else if String.eqb d "mute" then CallSetVolume 0
    else CallSetVolume 50 in
  let run :=
    if String.eqb d "up" || String.eqb d "increase" then IncreaseVolume p c
    else if String.eqb d "down" || String.eqb d "decrease" then DecreaseVolume p c
    else if String.eqb d "mute" then SetVolume 0 c
    else SetVolume 50 c in
  let result := Execute float64ToInt fmtValue action c in
  List.filter isControllerCall result.1.2 = [call] /\
  result.1.1 = run.1 /\ result.2 = run.2.
Proof.
  intros Hdir Hin Hset p call run result.
  unfold result, call, run, Execute. rewrite Hdir. fold p.
  simpl in Hin.
  destruct Hin as [<-|[<-|[<-|[<-|[<-|[<-|[<-|[]]]]]]]]; simpl;
    try contradiction;
    match goal with
    | |- context [IncreaseVolume p c] => destruct (IncreaseVolume p c)
    | |- context [DecreaseVolume p c] => destruct (DecreaseVolume p c)
    | |- context [SetVolume ?v c] => destruct (SetVolume v c)
    end; simpl; auto.
Qed.

End VolumeFacts.

(** X19.  The volume executor's [Execute] either fails before it touches
    the controller, leaving its state as it is, or calls the controller
    exactly once; a volume it sets is always within 0..100. *)
Theorem VolumeExecutor_Execute_calls {C : Type} `{VolumeExecutor.VolumeController C}
  (float64ToInt : string -> Z) (fmtValue : Config.ParamValue -> string)
  (action : Config.Action) (c : C) :
  let result := VolumeExecutor.Execute float64ToInt fmtValue action c in
  let calls := List.filter isControllerCall result.1.2 in
  ((calls = [] /\ result.1.1 = c /\ result.2 <> None) \/ length calls = 1%nat) /\
  (forall volume, In (CallSetVolume volume) result.1.2 -> 0 <= volume <= 100).
Proof.
  intros result calls. unfold calls, result, VolumeExecutor.Execute.
  assert (forall v : Z,
            let r := (if (v <? 0) || (v >? 100)
                      then (c, [ExecLog LDebug "Führe Volume-Aktion aus"
                                  [("parameters", VParameters (Config.Parameters action))]],
                            Some (Errorf ("volume muss zwischen 0 und 100 liegen, got: "
                                          +:+ fmt_d v)))
                      else let '(c', r) := VolumeExecutor.SetVolume v c in
                           (c', [ExecLog LDebug "Führe Volume-Aktion aus"
                                   [("parameters", VParameters (Config.Parameters action))];
                                 ExecLog LInfo "Setze Lautstärke" [("volume", VInt v)];
                                 CallSetVolume v], r)) in
            ((List.filter isControllerCall r.1.2 = [] /\ r.1.1 = c /\ r.2 <> None)
             \/ length (List.filter isControllerCall r.1.2) = 1%nat) /\
            (forall volume, In (CallSetVolume volume) r.1.2 -> 0 <= volume <= 100)) as Hset.
  { intros v. destruct (Z.ltb_spec v 0), (Z.gtb_spec v 100); simpl;
      try (split; [left; repeat split; discriminate
                  | intros volume [Hq|[]]; discriminate Hq]).
    destruct (VolumeExecutor.SetVolume v c) as [c' r]. simpl.
    split; [right; reflexivity|].
    intros volume [Hq|[Hq|[Hq|[]]]]; try discriminate Hq. inversion Hq; subst. lia. }
  destruct (Config.Parameters action !! "direction") as [[| | |d| |]|]; simpl;
    try (split; [left; repeat split; discriminate
                | intros volume [Hq|[]]; discriminate Hq]).
  destruct (String.eqb d "up" || String.eqb d "increase").
  { destruct (VolumeExecutor.IncreaseVolume _ c) as [c' r]. simpl.
    split; [right; reflexivity|].
    intros volume [Hq|[Hq|[Hq|[]]]]; discriminate Hq. }
  destruct (String.eqb d "down" || String.eqb d "decrease").
  { destruct (VolumeExecutor.DecreaseVolume _ c) as [c' r]. simpl.
    split; [right; reflexivity|].
    intros volume [Hq|[Hq|[Hq|[]]]]; discriminate Hq. }
  destruct (String.eqb d "set").
  { destruct (Config.Parameters action !! "volume") as [[| |lit|s| |]|]; simpl;
      try (split; [left; repeat split; discriminate
                  | intros volume [Hq|[]]; discriminate Hq]).
    - apply Hset.
    - destruct (Atoi s) as [n|]; [apply Hset|]. simpl.
      split; [left; repeat split; discriminate
             | intros volume [Hq|[]]; discriminate Hq]. }
  destruct (String.eqb d "mute").
  { destruct (VolumeExecutor.SetVolume 0 c) as [c' r]. simpl.
    split; [right; reflexivity|].
    intros volume [Hq|[Hq|[Hq|[]]]]; try discriminate Hq. inversion Hq; subst. lia. }
  destruct (String.eqb d "unmute").
  { destruct (VolumeExecutor.SetVolume 50 c) as [c' r]. simpl.
    split; [right; reflexivity|].
    intros volume [Hq|[Hq|[Hq|[]]]]; try discriminate Hq. inversion Hq; subst. lia. }
  simpl. split; [left; repeat split; discriminate
                | intros volume [Hq|[]]; discriminate Hq].
Qed.

(** X20.  When the volume executor's [Validate] accepts an action, its
    direction is a string among up, down, increase, decrease, set, mute and
    unmute, a set direction comes with a volume parameter, and the percent
    that [Execute] will use is within 1..100. *)
Theorem VolumeExecutor_Validate_sound
  (float64ToInt : string -> Z) (fmtValue : Config.ParamValue -> string)
  (action : Config.Action) :
  VolumeExecutor.Validate float64ToInt fmtValue action = None ->
  exists d,
    Config.Parameters action !! "direction" = Some (Config.PVString d) /\
    In d VolumeExecutor.validDirections /\
    (d = "set" -> is_Some (Config.Parameters action !! "volume")) /\
    1 <= VolumeExecutor.percentOf float64ToInt action <= 100.
Proof.
  intros Hv. destruct (Validate_None float64ToInt fmtValue action Hv) as (d & Hd).
  exists d. exact Hd.
Qed.

Lemma VolumeExecutor_Validate_sound_witness :
  1 <= VolumeExecutor.percentOf ExecutorSample.float64ToInt
         (ExecutorSample.volume "down" [("percent", Config.PVString "20")]) <= 100.
Proof.
  destruct (VolumeExecutor_Validate_sound ExecutorSample.float64ToInt
              ExecutorSample.fmtValue
              (ExecutorSample.volume "down" [("percent", Config.PVString "20")])
              ltac:(vm_compute; reflexivity)) as (d & _ & _ & _ & Hp).
  exact Hp.
Defined.

(** X21.  For an action that the volume executor's [Validate] accepts and
    whose direction is not set, [Execute] calls the controller exactly once
    and returns what that call returns, and the direction fixes the call:
    up and increase give [IncreaseVolume], down and decrease give
    [DecreaseVolume], both with the percent, which is within 1..100; mute
    gives [SetVolume 0] and unmute [SetVolume 50]; there is no further
    direction. *)
Theorem VolumeExecutor_validated_Execute {C : Type} `{VolumeExecutor.VolumeController C}
  (float64ToInt : string -> Z) (fmtValue : Config.ParamValue -> string)
  (action : Config.Action) (d : string) (c : C) :
  VolumeExecutor.Validate float64ToInt fmtValue action = None ->
  Config.Parameters action !! "direction" = Some (Config.PVString d) ->
  d <> "set" ->
  let p := VolumeExecutor.percentOf float64ToInt action in
  let result := VolumeExecutor.Execute float64ToInt fmtValue action c in
  let calls := List.filter isControllerCall result.1.2 in
  1 <= p <= 100 /\
  In d ["up"; "increase"; "down"; "decrease"; "mute"; "unmute"] /\
  (d = "up" \/ d = "increase" ->
   calls = [CallIncreaseVolume p] /\
   (result.1.1, result.2) = VolumeExecutor.IncreaseVolume p c) /\
  (d = "down" \/ d = "decrease" ->
   calls = [CallDecreaseVolume p] /\
   (result.1.1, result.2) = VolumeExecutor.DecreaseVolume p c) /\
  (d = "mute" ->
   calls = [CallSetVolume 0] /\ (result.1.1, result.2) = VolumeExecutor.SetVolume 0 c) /\
  (d = "unmute" ->
   calls = [CallSetVolume 50] /\ (result.1.1, result.2) = VolumeExecutor.SetVolume 50 c).
Proof.
  intros Hv Hdir Hset p result calls.
  destruct (Validate_None float64ToInt fmtValue action Hv) as (d' & Hd' & Hin & _ & Hp).
  rewrite Hdir in Hd'. inversion Hd'; subst d'.
  split; [exact Hp|].
  split; [simpl in Hin; simpl; intuition congruence|].
  pose proof (Execute_direction float64ToInt fmtValue action d c Hdir Hin Hset) as Hex.
  unfold calls, result, p.
  split; [|split; [|split]];
    [intros [Hd|Hd] | intros [Hd|Hd] | intros Hd | intros Hd];
    rewrite Hd in Hex; simpl in Hex; destruct Hex as (Hcalls & Hstate & Hres);
    (split; [exact Hcalls | rewrite Hstate, Hres; symmetry; apply surjective_pairing]).
Qed.

Lemma VolumeExecutor_validated_Execute_witness :
  let up := ExecutorSample.volume "up" [("percent", Config.PVNumber "5")] in
  let mute := ExecutorSample.volume "mute" [] in
  let run action :=
    VolumeExecutor.Execute (H := VolumeExecutor.linuxVolumeController)
      ExecutorSample.float64ToInt ExecutorSample.fmtValue action tt in
  (List.filter isControllerCall (run up).1.2 = [CallIncreaseVolume 5] /\
   (run up).2 = None) /\
  List.filter isControllerCall (run mute).1.2 = [CallSetVolume 0].
Proof.
  intros up mute run. split.
  - destruct (VolumeExecutor_validated_Execute (H := VolumeExecutor.linuxVolumeController)
                ExecutorSample.float64ToInt ExecutorSample.fmtValue up "up" tt
                ltac:(vm_compute; reflexivity) ltac:(vm_compute; reflexivity)
                ltac:(discriminate))
      as (_ & _ & Hup & _).
    destruct (Hup (or_introl eq_refl)) as [Hc _].
    split; [exact Hc | reflexivity].
  - destruct (VolumeExecutor_validated_Execute (H := VolumeExecutor.linuxVolumeController)
                ExecutorSample.float64ToInt ExecutorSample.fmtValue mute "mute" tt
                ltac:(vm_compute; reflexivity) ltac:(vm_compute; reflexivity)
                ltac:(discriminate))
      as (_ & _ & _ & _ & Hmute & _).
    exact (proj1 (Hmute eq_refl)).
Defined.

(** X22.  The controllers' [IncreaseVolume] and [DecreaseVolume] return the
    error of a volume that cannot be read and set nothing.  Otherwise each
    calls [SetVolume] once: [IncreaseVolume] never with more than 100,
    [DecreaseVolume] never with less than 0.  From a volume within 0..100
    and a percent that is not negative, as long as their sum fits the
    64-bit [int], [IncreaseVolume] sets the volume plus the percent, capped
    at 100, and [DecreaseVolume] the volume minus the percent, raised to 0,
    both within 0..100.  When the sum does not fit, it wraps around and
    [IncreaseVolume] sets a negative volume. *)
Theorem volume_controllers_clamp {C : Type}
  (get : C -> C * (error + Z)) (set : Z -> C -> C * option error)
  (percent : Z) (c : C) :
  (forall c1 err, get c = (c1, inl err) ->
     VolumeExecutor.increaseVolume get set percent c = (c1, Some err) /\
     VolumeExecutor.decreaseVolume get set percent c = (c1, Some err)) /\
  (forall c1 current, get c = (c1, inr current) ->
     (exists v, VolumeExecutor.increaseVolume get set percent c = set v c1 /\ v <= 100) /\
     (exists v, VolumeExecutor.decreaseVolume get set percent c = set v c1 /\ 0 <= v) /\
     (0 <= current <= 100 -> 0 <= percent -> current + percent < 2 ^ 63 ->
      VolumeExecutor.increaseVolume get set percent c
      = set (Z.min (current + percent) 100) c1 /\
      VolumeExecutor.decreaseVolume get set percent c
      = set (Z.max (current - percent) 0) c1 /\
      0 <= Z.min (current + percent) 100 <= 100 /\
      0 <= Z.max (current - percent) 0 <= 100) /\
     (0 <= current <= 100 -> percent < 2 ^ 63 -> 2 ^ 63 <= current + percent ->
      VolumeExecutor.increaseVolume get set percent c
      = set (current + percent - 2 ^ 64) c1 /\
      current + percent - 2 ^ 64 < 0)).
Proof.
  unfold VolumeExecutor.increaseVolume, VolumeExecutor.decreaseVolume. split.
  - intros c1 err ->. split; reflexivity.
  - intros c1 current ->. split; [|split; [|split]].
    + destruct (Z.gtb_spec (Midi.wrap64 (current + percent)) 100);
        eexists; (split; [reflexivity | lia]).
    + destruct (Z.ltb_spec (Midi.wrap64 (current - percent)) 0);
        eexists; (split; [reflexivity | lia]).
    + intros Hcur Hp Hsum. rewrite !wrap64_small by lia.
      split; [|split; [|lia]].
      * destruct (Z.gtb_spec (current + percent) 100);
          [rewrite Z.min_r by lia | rewrite Z.min_l by lia]; reflexivity.
      * destruct (Z.ltb_spec (current - percent) 0);
          [rewrite Z.max_r by lia | rewrite Z.max_l by lia]; reflexivity.
    + intros Hcur Hp Hsum.
      assert (Midi.wrap64 (current + percent) = current + percent - 2 ^ 64) as ->.
      { unfold Midi.wrap64.
        replace (current + percent + 2 ^ 63)
          with (current + percent - 2 ^ 63 + 1 * 2 ^ 64) by lia.
        rewrite Z_mod_plus_full, Z.mod_small by lia. lia. }
      split; [|lia].
      destruct (Z.gtb_spec (current + percent - 2 ^ 64) 100); [lia | reflexivity].
Qed.

(** A controller whose state is the volume: 80 raised by 30 is capped at
    100, 20 lowered by 30 is raised to 0, and 50 raised by the largest
    [int] wraps around to a negative volume. *)
Lemma volume_controllers_clamp_witness :
  let get := fun v : Z => (v, @inr error Z v) in
  let set := fun (n : Z) (_ : Z) => (n, @None error) in
  VolumeExecutor.increaseVolume get set 30 80 = (100, None) /\
  VolumeExecutor.decreaseVolume get set 30 20 = (0, None) /\
  VolumeExecutor.increaseVolume get set (2 ^ 63 - 1) 50 = (-9223372036854775759, None).
Proof.
  intros get set. split; [|split].
  - destruct (proj2 (volume_controllers_clamp get set 30 80) 80 80 eq_refl)
      as (_ & _ & Hfits & _).
    rewrite (proj1 (Hfits ltac:(lia) ltac:(lia) ltac:(lia))). reflexivity.
  - destruct (proj2 (volume_controllers_clamp get set 30 20) 20 20 eq_refl)
      as (_ & _ & Hfits & _).
    rewrite (proj1 (proj2 (Hfits ltac:(lia) ltac:(lia) ltac:(lia)))). reflexivity.
  - destruct (proj2 (volume_controllers_clamp get set (2 ^ 63 - 1) 50) 50 50 eq_refl)
      as (_ & _ & _ & Hwraps).
    rewrite (proj1 (Hwraps ltac:(lia) ltac:(lia) ltac:(lia))). reflexivity.
Defined.

(** X23.  With the volume executor registered under its name, the goroutine
    that [handleEvent] starts for a mapping whose volume action [Validate]
    accepts, of a direction other than set, asks the manager once, calls the
    executor once and reaches the controller exactly once. *)
Theorem executeTask_reaches_volume_controller
  {C P : Type} `{VolumeExecutor.VolumeController C}
  (float64ToInt : string -> Z) (fmtValue : Config.ParamValue -> string)
  (h : Midi.Handler (C * list ExecCall) P) (m : Config.Mapping) (d : string)
  (w : C * list ExecCall) :
  Actions.GetExecutor (Midi.actionMgr h) "volume"
  = Some (VolumeExecutor.asExecutor float64ToInt fmtValue) ->
  Config.AType (Config.Action_ m) = "volume" ->
  VolumeExecutor.Validate float64ToInt fmtValue (Config.Action_ m) = None ->
  Config.Parameters (Config.Action_ m) !! "direction" = Some (Config.PVString d) ->
  d <> "set" ->
  let result := Midi.executeTask h m w in
  List.filter isExecutorCall result.2 = [ExecutorExecute "volume" (Config.Action_ m)] /\
  exists call,
    List.filter isControllerCall result.1.2
    = List.filter isControllerCall w.2 ++ [call].
Proof.
  intros Hreg Hty Hv Hdir Hset result.
  destruct (Validate_None float64ToInt fmtValue _ Hv) as (d' & Hd' & Hin & _ & _).
  rewrite Hdir in Hd'. inversion Hd'; subst d'.
  destruct (Execute_direction float64ToInt fmtValue _ d w.1 Hdir Hin Hset) as (Hcalls & _ & _).
  unfold result, Midi.executeTask, Actions.Execute.
  unfold Actions.GetExecutor in Hreg. rewrite Hty, Hreg. simpl.
  destruct (VolumeExecutor.Execute float64ToInt fmtValue (Config.Action_ m) w.1)
    as [[c' calls] r]. simpl in Hcalls.
  destruct r as [err|]; simpl; (split; [reflexivity|]);
    eexists; rewrite List.filter_app, Hcalls; reflexivity.
Qed.

Lemma executeTask_reaches_volume_controller_witness :
  let action := ExecutorSample.volume "up" [("percent", Config.PVNumber "5")] in
  let executor :=
    VolumeExecutor.asExecutor (H := VolumeExecutor.linuxVolumeController)
      ExecutorSample.float64ToInt ExecutorSample.fmtValue in
  let h : Midi.Handler (unit * list ExecCall) LinuxPort :=
    Midi.newHandler Sample.onChannel3
      (Actions.registerExecutor Actions.emptyManager executor) newLinuxMIDIPort in
  let m :=
    {| Config.Name := "Volume"; Config.Event := Sample.filterCC7;
       Config.Action_ := action; Config.Enabled := true |} in
  exists call,
    List.filter isControllerCall (Midi.executeTask h m (tt, [])).1.2 = [] ++ [call].
Proof.
  intros action executor h m.
  apply (executeTask_reaches_volume_controller (H := VolumeExecutor.linuxVolumeController)
           ExecutorSample.float64ToInt ExecutorSample.fmtValue h m "up" (tt, [])).
  - exact (registerExecutor_lookup Actions.emptyManager executor).
  - reflexivity.
  - vm_compute; reflexivity.
  - vm_compute; reflexivity.
  - discriminate.
Defined.

(** ** The audio source executor *)

Section AudioFacts.

Import AudioSourceExecutor.

(** [indexOfID] finds the first source with the ID. *)
Lemma indexOfID_Some (id : string) (sources : list AudioSource) (i k : nat) :
  indexOfID id sources i = Some k ->
  exists j s, k = (i + j)%nat /\ sources !! j = Some s /\ ID s = id /\
    forall j' s', (j' < j)%nat -> sources !! j' = Some s' -> ID s' <> id.
Proof.
  revert i. induction sources as [|x sources IH]; intros i; simpl; [discriminate|].
  destruct (String.eqb_spec (ID x) id) as [Hx|Hx].
  - intros Heq. inversion Heq; subst. exists 0%nat, x.
    split; [lia|]. split; [reflexivity|]. split; [reflexivity|]. intros; lia.
  - intros Hrest. destruct (IH (S i) Hrest) as (j & s & -> & Hj & Hs & Hleast).
    exists (S j), s. split; [lia|]. split; [exact Hj|]. split; [exact Hs|].
    intros [|j'] s' Hlt Hj'; simpl in Hj'.
    + inversion Hj'; subst. exact Hx.
    + apply (Hleast j' s'); [lia | exact Hj'].
Qed.

Lemma indexOfID_None (id : string) (sources : list AudioSource) (i : nat) :
  indexOfID id sources i = None <-> forall s, In s sources -> ID s <> id.
Proof.
  revert i. induction sources as [|x sources IH]; intros i; simpl.
  - split; [intros _ s [] | reflexivity].
  - destruct (String.eqb_spec (ID x) id) as [Hx|Hx].
    + split; [discriminate | intros Hall; destruct (Hall x (or_introl eq_refl) Hx)].
    + rewrite IH. split.
      * intros Hall s [<-|Hin]; [exact Hx | apply Hall, Hin].
      * intros Hall s Hin. apply Hall. right; exact Hin.
Qed.

(** With distinct IDs a source is found at its own index. *)
Lemma NoDup_ID_index (sources : list AudioSource) (j k : nat) (s s' : AudioSource) :
  NoDup (map ID sources) -> sources !! j = Some s -> sources !! k = Some s' ->
  ID s = ID s' -> j = k.
Proof.
  intros Hnd Hj Hk Heq.
  apply (NoDup_lookup (map ID sources) j k (ID s)); [exact Hnd| |].
  - rewrite list_lookup_fmap, Hj. reflexivity.
  - rewrite list_lookup_fmap, Hk. simpl. rewrite Heq. reflexivity.
Qed.

Lemma nextSource_In (first : AudioSource) (rest : list AudioSource)
  (current : AudioSource) :
  In (nextSource first (first :: rest) current) (first :: rest).
Proof.
  unfold nextSource. destruct (indexOfID _ _ 0); [|left; reflexivity].
  apply nth_In. apply Nat.mod_upper_bound. simpl. lia.
Qed.

End AudioFacts.

(** X24.  [cycleAudioSource] makes a source the default only when the
    controller listed that source: it never selects an ID outside the list
    it was given, and selects nothing when the list is empty or cannot be
    read. *)
Theorem cycleAudioSource_selects_listed {C : Type}
  `{AudioSourceExecutor.AudioController C} (c : C) (id : string) :
  In (CallSetDefaultAudioSource id) (AudioSourceExecutor.cycleAudioSource c).1.2 ->
  exists sources source,
    (AudioSourceExecutor.GetAudioSources c).2 = inr sources /\
    In source sources /\ AudioSourceExecutor.ID source = id.
Proof.
  unfold AudioSourceExecutor.cycleAudioSource.
  destruct (AudioSourceExecutor.GetAudioSources c) as [c1 [err|[|first rest]]]; simpl.
  - intros [Hq|[]]; discriminate Hq.
  - intros [Hq|[]]; discriminate Hq.
  - destruct (AudioSourceExecutor.GetDefaultAudioSource c1) as [c2 [err|current]]; simpl.
    + intros [Hq|[Hq|[]]]; discriminate Hq.
    + destruct (AudioSourceExecutor.SetDefaultAudioSource _ c2) as [c3 r]. simpl.
      intros [Hq|[Hq|[Hq|[Hq|[]]]]]; try discriminate Hq.
      inversion Hq.
      exists (first :: rest), (AudioSourceExecutor.nextSource first (first :: rest) current).
      split; [reflexivity|]. split; [apply nextSource_In | reflexivity].
Qed.

Lemma cycleAudioSource_selects_listed_witness :
  exists source,
    In source ExecutorSample.linuxSources /\
    AudioSourceExecutor.ID source = "analog-stereo".
Proof.
  destruct (cycleAudioSource_selects_listed (H := ExecutorSample.rememberingController)
              "bluetooth" "analog-stereo" ltac:(vm_compute; auto))
    as (sources & source & Hs & Hin & Hid).
  inversion Hs; subst sources. exists source. auto.
Defined.

(** X25.  When the controller lists sources with distinct IDs and the
    default source is the one at index k, [cycleAudioSource] makes the
    source at index k+1 the default, and the first one after the last; when
    the default source is not in the list it makes the first source the
    default.  It returns what setting the default returns. *)
Theorem cycleAudioSource_next {C : Type} `{AudioSourceExecutor.AudioController C}
  (c c1 c2 : C) (sources : list AudioSourceExecutor.AudioSource)
  (current : AudioSourceExecutor.AudioSource) :
  AudioSourceExecutor.GetAudioSources c = (c1, inr sources) ->
  AudioSourceExecutor.GetDefaultAudioSource c1 = (c2, inr current) ->
  sources <> [] ->
  NoDup (map AudioSourceExecutor.ID sources) ->
  exists next,
    List.filter isControllerCall (AudioSourceExecutor.cycleAudioSource c).1.2
    = [CallGetAudioSources; CallGetDefaultAudioSource;
       CallSetDefaultAudioSource (AudioSourceExecutor.ID next)] /\
    ((AudioSourceExecutor.cycleAudioSource c).1.1,
     (AudioSourceExecutor.cycleAudioSource c).2)
    = AudioSourceExecutor.SetDefaultAudioSource (AudioSourceExecutor.ID next) c2 /\
    (forall k s,
       sources !! k = Some s ->
       AudioSourceExecutor.ID s = AudioSourceExecutor.ID current ->
       sources !! Nat.modulo (k + 1) (length sources) = Some next) /\
    ((forall s, In s sources ->
                AudioSourceExecutor.ID s <> AudioSourceExecutor.ID current) ->
     sources !! 0%nat = Some next).
Proof.
  intros Hget Hdef Hne Hnd.
  unfold AudioSourceExecutor.cycleAudioSource. rewrite Hget.
  destruct sources as [|first rest]; [contradiction|]. rewrite Hdef.
  exists (AudioSourceExecutor.nextSource first (first :: rest) current).
  destruct (AudioSourceExecutor.SetDefaultAudioSource _ c2) as [c3 r] eqn:Hset.
  split; [reflexivity|]. split; [reflexivity|].
  unfold AudioSourceExecutor.nextSource. split.
  - intros k s Hk Hs.
    destruct (AudioSourceExecutor.indexOfID _ _ 0) as [i|] eqn:Hidx.
    + destruct (indexOfID_Some _ _ _ _ Hidx) as (j & s' & -> & Hj & Hs' & _).
      assert (j = k) as -> by (apply (NoDup_ID_index _ j k s' s Hnd Hj Hk); congruence).
      simpl Nat.add.
      assert (Nat.modulo (k + 1) (length (first :: rest)) < length (first :: rest))%nat
        as Hlt by (apply Nat.mod_upper_bound; simpl; lia).
      destruct (lookup_lt_is_Some_2 _ _ Hlt) as [x Hx]. rewrite Hx.
      f_equal. symmetry. apply nth_lookup_Some with (1 := Hx).
    + rewrite indexOfID_None in Hidx.
      destruct (Hidx s (proj1 (list_elem_of_In _ _) (list_elem_of_lookup_2 _ _ _ Hk)) Hs).
  - intros Hall. apply (indexOfID_None _ _ 0%nat) in Hall. rewrite Hall. reflexivity.
Qed.

Lemma cycleAudioSource_next_witness :
  exists next,
    ExecutorSample.linuxSources !! 0%nat = Some next /\
    (AudioSourceExecutor.cycleAudioSource (H := ExecutorSample.rememberingController)
       "bluetooth").1.1 = AudioSourceExecutor.ID next.
Proof.
  destruct (cycleAudioSource_next (H := ExecutorSample.rememberingController)
              "bluetooth" "bluetooth" "bluetooth" ExecutorSample.linuxSources
              (ExecutorSample.source "bluetooth" "bluetooth") eq_refl eq_refl
              ltac:(discriminate)
              ltac:(apply (bool_decide_eq_true_1 (NoDup _)); vm_compute; reflexivity))
    as (next & _ & Hres & Hk & _).
  exists next. split.
  - apply (Hk 2%nat (ExecutorSample.source "bluetooth" "Bluetooth Audio")); reflexivity.
  - simpl in Hres. inversion Hres. reflexivity.
Defined.

(** X26.  [validateSource] asks the controller for its sources once; it
    accepts an ID when the sources cannot be read or when one of them has
    that ID or that name, and otherwise returns an error whose message
    carries the ID. *)
Theorem validateSource_accepts {C : Type} `{AudioSourceExecutor.AudioController C}
  (sourceID : string) (c : C) :
  let result := AudioSourceExecutor.validateSource sourceID c in
  result.1.2 = [CallGetAudioSources] /\
  (result.2 = None <->
   (exists err, (AudioSourceExecutor.GetAudioSources c).2 = inl err) \/
   (exists sources source,
      (AudioSourceExecutor.GetAudioSources c).2 = inr sources /\ In source sources /\
      (AudioSourceExecutor.ID source = sourceID \/
       AudioSourceExecutor.Name source = sourceID))) /\
  (forall err, result.2 = Some err -> contains (Error err) sourceID).
Proof.
  intros result. unfold result, AudioSourceExecutor.validateSource.
  destruct (AudioSourceExecutor.GetAudioSources c) as [c1 [e|sources]]; simpl.
  - split; [reflexivity|]. split; [|discriminate].
    split; [intros _; left; eauto | reflexivity].
  - destruct (existsb _ sources) eqn:Hex; simpl.
    + split; [reflexivity|]. split; [|discriminate].
      split; [|reflexivity]. intros _. right.
      apply existsb_exists in Hex. destruct Hex as (source & Hin & Hm).
      exists sources, source. split; [reflexivity|]. split; [exact Hin|].
      apply orb_true_iff in Hm. destruct Hm as [Hm|Hm];
        apply String.eqb_eq in Hm; auto.
    + split; [reflexivity|]. split.
      * split; [discriminate|].
        intros [[err Herr] | (sources' & source & Hs & Hin & Hm)]; [discriminate|].
        inversion Hs; subst sources'.
        assert (existsb (fun s => String.eqb (AudioSourceExecutor.ID s) sourceID
                                  || String.eqb (AudioSourceExecutor.Name s) sourceID)
                  sources = true) as Htrue.
        { apply existsb_exists. exists source. split; [exact Hin|].
          apply orb_true_iff. destruct Hm as [<-|<-];
            [left | right]; apply String.eqb_refl. }
        rewrite Htrue in Hex. discriminate.
      * intros err Heq. inversion Heq; subst. simpl. apply contains_middle.
Qed.

(** ** The application start executor: paths *)

Section PathFacts.

Lemma append_cons (a : ascii) (s t : string) : String a s +:+ t = String a (s +:+ t).
Proof. reflexivity. Qed.

Lemma HasPrefix_spec (s prefix : string) :
  HasPrefix s prefix = true <-> exists post, s = prefix +:+ post.
Proof.
  unfold HasPrefix. revert s. induction prefix as [|a prefix IH]; intros s.
  - split; [intros _; exists s; reflexivity | intros _; destruct s; reflexivity].
  - destruct s as [|b s]; simpl.
    + split; [discriminate | intros [post Hq]; discriminate Hq].
    + destruct (ascii_dec a b) as [->|Hab].
      * rewrite IH. split; intros [post Hq]; exists post.
        -- rewrite append_cons, <- Hq. reflexivity.
        -- rewrite append_cons in Hq. inversion Hq. reflexivity.
      * split; [discriminate|]. intros [post Hq]. rewrite append_cons in Hq.
        inversion Hq. congruence.
Qed.

(** [Contains] decides the occurrence of a substring. *)
Lemma Contains_spec (s substr : string) :
  Contains s substr = true <-> contains s substr.
Proof.
  induction s as [|a s IH]; cbn [Contains].
  - rewrite orb_false_r, HasPrefix_spec. split.
    + intros [post Hq]. exists "", post. exact Hq.
    + intros (pre & post & Hq). destruct pre; [exists post; exact Hq|].
      rewrite append_cons in Hq. discriminate Hq.
  - rewrite orb_true_iff, HasPrefix_spec, IH. split.
    + intros [[post Hq] | (pre & post & Hq)].
      * exists "", post. exact Hq.
      * exists (String a pre), post. rewrite append_cons, <- Hq. reflexivity.
    + intros (pre & post & Hq). destruct pre as [|b pre].
      * left. exists post. exact Hq.
      * right. rewrite append_cons in Hq. inversion Hq. exists pre, post. reflexivity.
Qed.

Lemma get_contains (n : nat) (s : string) (a : ascii) :
  String.get n s = Some a -> contains s (String a "").
Proof.
  revert n. induction s as [|b s IH]; intros n; simpl; [discriminate|].
  destruct n as [|n].
  - intros Hq. inversion Hq; subst. exists "", s. reflexivity.
  - intros Hn. destruct (IH n Hn) as (pre & post & ->).
    exists (String b pre), post. reflexivity.
Qed.

Lemma length_zero (s : string) : (String.length s =? 0)%nat = true <-> s = "".
Proof. destruct s; simpl; split; intros; try reflexivity; discriminate. Qed.

(** A path with a colon does not get past the forbidden characters. *)
Lemma validateWindowsPath_colon (path : string) :
  Contains path ":" = true ->
  exists char,
    In char ["<"; ">"; ":"] /\
    AppStartExecutor.validateWindowsPath path
    = Some (Errorf ("pfad enthält verbotenes Zeichen: " +:+ char)).
Proof.
  intros Hcolon. unfold AppStartExecutor.validateWindowsPath.
  destruct (String.length path =? 0)%nat eqn:Hlen.
  - apply length_zero in Hlen. subst. discriminate Hcolon.
  - unfold AppStartExecutor.forbiddenWindowsChars. simpl.
    destruct (Contains path "<"); [exists "<"; simpl; auto|].
    destruct (Contains path ">"); [exists ">"; simpl; auto|].
    rewrite Hcolon. exists ":". simpl; auto.
Qed.

Lemma validateArgs_None (i : Z) (args : list Config.ParamValue) :
  AppStartExecutor.validateArgs i args = None ->
  Forall (fun arg => exists s, arg = Config.PVString s) args.
Proof.
  revert i. induction args as [|arg args IH]; intros i; [constructor|].
  simpl. destruct arg; try discriminate. intros Hrest.
  constructor; [eauto | apply (IH (i + 1)), Hrest].
Qed.

End PathFacts.

(** X27.  [validateLinuxPath] accepts exactly the paths that are not empty,
    contain no NUL byte and, when they start with a slash, contain no two
    dots in a row; a relative path may contain them. *)
Theorem validateLinuxPath_accepts (path : string) :
  AppStartExecutor.validateLinuxPath path = None <->
  path <> "" /\ ~ contains path AppStartExecutor.nul /\
  ((exists rest, path = "/" +:+ rest) -> ~ contains path "..").
Proof.
  unfold AppStartExecutor.validateLinuxPath.
  rewrite <- !Contains_spec, <- HasPrefix_spec.
  destruct (String.length path =? 0)%nat eqn:Hlen.
  - apply length_zero in Hlen. split; [discriminate | intros [Hne _]; contradiction].
  - assert (path <> "") as Hne by (intros ->; discriminate Hlen).
    destruct (Contains path AppStartExecutor.nul);
      [split; [discriminate | intros (_ & Hn & _); destruct (Hn eq_refl)]|].
    destruct (HasPrefix path "/"), (Contains path ".."); simpl;
      (split; [intros Hv; try discriminate Hv | intros (_ & _ & Hd)]);
      try reflexivity; try (destruct (Hd eq_refl eq_refl));
      (split; [exact Hne | split; [discriminate | intros; discriminate]]).
Qed.

(** X28.  [validateWindowsPath] rejects every path that contains a colon
    for a forbidden character; in particular every path that its own
    drive-letter test calls absolute, with the drives C and D. *)
Theorem validateWindowsPath_rejects_drive_paths (path : string) :
  (contains path ":" \/ String.get 1 path = Some ":"%char) ->
  exists char,
    In char ["<"; ">"; ":"] /\
    AppStartExecutor.validateWindowsPath path
    = Some (Errorf ("pfad enthält verbotenes Zeichen: " +:+ char)).
Proof.
  intros Hcolon. apply validateWindowsPath_colon, Contains_spec.
  destruct Hcolon as [Hc | Hg]; [exact Hc | exact (get_contains 1 path _ Hg)].
Qed.

Lemma validateWindowsPath_rejects_drive_paths_witness :
  AppStartExecutor.validateWindowsPath "C:\Program Files\obs-studio\bin\64bit\obs64.exe"
  = Some (Errorf "pfad enthält verbotenes Zeichen: :").
Proof.
  destruct (validateWindowsPath_rejects_drive_paths
              "C:\Program Files\obs-studio\bin\64bit\obs64.exe"
              (or_intror eq_refl)) as (char & _ & Hv).
  rewrite Hv. vm_compute in Hv. inversion Hv. reflexivity.
Defined.

(** X29.  When the application start executor's [Validate] accepts an
    action, the platform is Windows or Linux, the path is a string that is
    not empty and passes the platform's path validation, has no colon on
    Windows, and an args parameter that is a list holds strings only. *)
Theorem AppStartExecutor_Validate_sound
  (GOOS : string) (fmtValue : Config.ParamValue -> string) (action : Config.Action) :
  AppStartExecutor.Validate GOOS fmtValue action = None ->
  exists pathStr,
    Config.Parameters action !! "path" = Some (Config.PVString pathStr) /\
    pathStr <> "" /\
    (GOOS = "windows" \/ GOOS = "linux") /\
    AppStartExecutor.validatePath GOOS pathStr = None /\
    (GOOS = "windows" -> ~ contains pathStr ":") /\
    (forall args,
       Config.Parameters action !! "args" = Some (Config.PVList args) ->
       Forall (fun arg => exists s, arg = Config.PVString s) args).
Proof.
  unfold AppStartExecutor.Validate.
  destruct (Config.Parameters action !! "path") as [[| | |pathStr| |]|]; try discriminate.
  destruct (String.eqb_spec pathStr "") as [|Hne]; [discriminate|].
  destruct (AppStartExecutor.validatePath GOOS pathStr) as [err|] eqn:Hpath; [discriminate|].
  intros Hv. exists pathStr. split; [reflexivity|]. split; [exact Hne|].
  assert (GOOS = "windows" \/ GOOS = "linux") as Hos.
  { unfold AppStartExecutor.validatePath in Hpath.
    destruct (String.eqb_spec GOOS "windows"); [left; assumption|].
    destruct (String.eqb_spec GOOS "linux"); [right; assumption | discriminate]. }
  split; [exact Hos|]. split; [exact Hpath|]. split.
  - intros -> Hcolon. apply Contains_spec in Hcolon.
    destruct (validateWindowsPath_colon pathStr Hcolon) as (char & _ & Hrej).
    unfold AppStartExecutor.validatePath in Hpath. simpl in Hpath.
    rewrite Hrej in Hpath. discriminate.
  - intros args Hargs. rewrite Hargs in Hv.
    assert (AppStartExecutor.validateArgs 0 args = None) as Hnone
      by (destruct (AppStartExecutor.validateArgs 0 args); [discriminate | reflexivity]).
    exact (validateArgs_None 0 args Hnone).
Qed.

Lemma AppStartExecutor_Validate_sound_witness :
  let action :=
    {| Config.AType := "app_start";
       Config.Parameters :=
         {[ "path" := Config.PVString "../bin/obs";
            "args" := Config.PVList [Config.PVString "--minimize"] ]} |} in
  AppStartExecutor.validatePath "linux" "../bin/obs" = None.
Proof.
  intros action.
  destruct (AppStartExecutor_Validate_sound "linux" ExecutorSample.fmtValue action
              ltac:(vm_compute; reflexivity)) as (pathStr & Hp & _ & _ & Hv & _).
  vm_compute in Hp. inversion Hp; subst pathStr. exact Hv.
Defined.

(** ** The key combination executor: validation *)

Section KeyFacts.

Import Config KeyCombinationExecutor.

Lemma collectKeys_inr (i : Z) (acc : list string) (keys : list ParamValue)
  (keyList : list string) :
  collectKeys i acc keys = inr keyList ->
  exists strings, keys = map PVString strings /\ keyList = rev acc ++ strings.
Proof.
  revert i acc. induction keys as [|key keys IH]; intros i acc; simpl.
  - intros Hq. inversion Hq. exists []. rewrite app_nil_r. auto.
  - destruct key as [| | |keyStr| |]; try discriminate.
    intros Hrest. destruct (IH _ _ Hrest) as (strings & -> & ->).
    exists (keyStr :: strings). simpl. rewrite <- app_assoc. auto.
Qed.

End KeyFacts.

(** X30.  The key combination executor's [Validate] rejects every action
    whose keys parameter is a string, as if it held no key.  When it accepts
    an action, the keys parameter is a list of strings that is not empty,
    and holds exactly one key when the type is hold. *)
Theorem KeyCombinationExecutor_Validate_keys
  (GOOS : string) (ToUpper : string -> string)
  (fmtValue : Config.ParamValue -> string)
  (float64Negative ParseDurationFails : string -> bool) (action : Config.Action) :
  let verdict :=
    KeyCombinationExecutor.Validate GOOS ToUpper fmtValue float64Negative
      ParseDurationFails action in
  (forall keys,
     Config.Parameters action !! "keys" = Some (Config.PVString keys) ->
     verdict = Some (Errorf "'keys' Parameter darf nicht leer sein")) /\
  (verdict = None ->
   exists keyList,
     Config.Parameters action !! "keys" = Some (Config.PVList (map Config.PVString keyList)) /\
     keyList <> [] /\
     (Config.Parameters action !! "type" = Some (Config.PVString "hold") ->
      length keyList = 1%nat)).
Proof.
  intros verdict. unfold verdict, KeyCombinationExecutor.Validate. split.
  - intros keys ->. reflexivity.
  - destruct (Config.Parameters action !! "keys") as [[| | |keys|v|]|]; try discriminate.
    destruct (KeyCombinationExecutor.collectKeys 0 [] v) as [err|keyList] eqn:Hc;
      [discriminate|].
    destruct (collectKeys_inr _ _ _ _ Hc) as (strings & -> & ->). simpl.
    destruct (length strings =? 0)%nat eqn:Hlen; [discriminate|].
    destruct (KeyCombinationExecutor.validateKeys _ _ 0 strings); [discriminate|].
    intros Hv. exists strings. split; [reflexivity|]. split.
    + intros ->. discriminate Hlen.
    + intros Hhold. rewrite Hhold in Hv. simpl in Hv.
      destruct (length strings =? 1)%nat eqn:H1; [|discriminate Hv].
      apply Nat.eqb_eq. exact H1.
Qed.

Lemma KeyCombinationExecutor_Validate_keys_witness :
  KeyCombinationExecutor.Validate "linux" (fun s => s) ExecutorSample.fmtValue
    (fun _ => false) (fun _ => false)
    {| Config.AType := "key_combination";
       Config.Parameters := {[ "keys" := Config.PVString "CTRL,C" ]} |}
  = Some (Errorf "'keys' Parameter darf nicht leer sein").
Proof.
  apply (proj1 (KeyCombinationExecutor_Validate_keys "linux" (fun s => s)
                  ExecutorSample.fmtValue (fun _ => false) (fun _ => false) _)
           "CTRL,C").
  reflexivity.
Defined.
